(** * lensm: the command-line entry point and the UI state of main.go

    main.go holds [main], [Windows], [fontCollection] and the [UI] type with
    its methods.  Everything else the file calls lives in the Go standard
    library, in Gio, or in other files of the program (the Matcher [Parse],
    [ParseExe], [SelectList], [SymbolList], [MatchUIStyle]); those enter the
    development through the interfaces [ExtTypes], [ExtOps], [Widgets] and
    [Matcher].

    Conventions of the embedding:
    - a Go [int] is a [Z]; no arithmetic of main.go can overflow it, the
      only integer operations on it are comparisons and copies;
    - a Go [error] is its message, a [string];
    - a nilable pointer to a struct is an [option] of the struct;
    - [*Match] pointers are always of the form [&ui.Output.Matches[i]] and
      [ui.Output] is assigned once, in [main]: such a pointer is
      represented by the index [i], and pointer equality by equality of
      indices;
    - [float32] computations (Gio units) stay abstract;
    - effects are explicit: a computation threads a state, may stop with
      [os.Exit] or [panic], and appends the observable actions it performs
      to a trace of [Event]s. *)

From Stdlib Require Import Strings.Byte.
From stdpp Require Import base numbers option list strings.

Local Open Scope Z_scope.

(** ** Plain data *)

(** A Go error value, identified with its message. *)
Definition error : Type := string.

(** The message of the run-time panic raised by a nil pointer dereference. *)
Definition nil_deref : error :=
  "runtime error: invalid memory address or nil pointer dereference".

(** The message of the run-time panic raised by indexing out of range. *)
Definition index_out_of_range : error := "runtime error: index out of range".

(** image.Point *)
Record Point : Type := Pt { X : Z; Y : Z }.

(** layout.Constraints *)
Record Constraints : Type := { Min : Point; Max : Point }.

(** layout.Dimensions; [Dimensions{}] is [Dimensions_zero]. *)
Record Dimensions : Type := { Size : Point; Baseline : Z }.

Definition Dimensions_zero : Dimensions := {| Size := Pt 0 0; Baseline := 0 |}.

(** layout.Exact *)
Definition layout_Exact (size : Point) : Constraints :=
  {| Min := size; Max := size |}.

(** color.NRGBA *)
Record NRGBA : Type := { R : Z; G : Z; B : Z; A : Z }.

Definition hoverBackground : NRGBA := {| R := 0xA0; G := 0xA0; B := 0xE0; A := 0xFF |}.
Definition secondaryBackground : NRGBA := {| R := 0xF0; G := 0xF0; B := 0xF0; A := 0xFF |}.
Definition splitterColor : NRGBA := {| R := 0x80; G := 0x80; B := 0x80; A := 0xFF |}.

(** How a computation ends: it returns a value, the process exits with a
    status ([os.Exit]), or it panics with a value. *)
Inductive Res (T : Type) : Type :=
| Ret (a : T)
| Exit (code : Z)
| Panic (v : error).
Arguments Ret {T} a.
Arguments Exit {T} code.
Arguments Panic {T} v.

(** ** The types main.go takes from elsewhere *)

Class ExtTypes : Type := {
  (** Go's float32, the carrier of unit.Sp and unit.Dp. *)
  float32 : Type;
  (** unit.Metric *)
  Metric : Type;
  (** *regexp.Regexp, a compiled pattern. *)
  Regexp : Type;
  (** text.Face, a parsed font, and text.Weight. *)
  Face : Type;
  Weight : Type;
  (** The fields of material.Theme other than TextSize. *)
  ThemeRest : Type;
  (** The fields of SelectList other than Selected. *)
  SelectListRest : Type;
  (** The fields of MatchUIState other than the two scroll offsets. *)
  MatchUIRest : Type;
  (** SymbolList. *)
  SymbolList : Type;
  (** widget.Click, one recorded click of a widget.Clickable. *)
  Click : Type;
  (** The raw section bytes and the debug-info handle of an Executable. *)
  ExeImage : Type;
  (** A disassembled instruction and a window of source lines. *)
  Instruction : Type;
  SourceWindow : Type;
}.

Section Lensm.
Context {ET : ExtTypes}.

(** layout.Context: the constraints and the metric of the frame. *)
Record Context : Type := { Ctx_Constraints : Constraints; Ctx_Metric : Metric }.

Definition with_Constraints (gtx : Context) (cs : Constraints) : Context :=
  {| Ctx_Constraints := cs; Ctx_Metric := Ctx_Metric gtx |}.

(** text.Font and text.FontFace *)
Record Font : Type := { Font_Variant : string; Font_Weight : Weight }.
Record FontFace : Type := { FF_Font : Font; FF_Face : Face }.

(** material.Theme *)
Record Theme : Type := { TextSize : float32; Theme_rest : ThemeRest }.

Definition Theme_set_TextSize (v : float32) (th : Theme) : Theme :=
  {| TextSize := v; Theme_rest := Theme_rest th |}.

(** Options, as the composite literal in [main] fills it. *)
Record Options : Type := {
  Exe : string;
  Filter : Regexp;
  Context_ : Z;
  MaxSymbols : Z;
}.

(** Modelled from the spec: the types Symbol, Block, Match, Output and
    Executable, which are declared outside main.go.  The fields main.go
    reads are [Output.Matches], [Match.Name] and [Executable.Syms]; the
    others follow section 3 of the specification. *)
Record Symbol : Type := {
  Sym_Name : string;
  Sym_Addr : Z;
  Sym_Size : Z;
  Sym_Section : Z;
}.

Record Block : Type := {
  Block_File : string;
  Block_Line : option Z;
  Block_Instructions : list Instruction;
}.

Record Match : Type := {
  Name : string;
  Blocks : list Block;
  Sources : list (option SourceWindow);
}.

Record Output : Type := { Matches : list Match }.

Record Executable : Type := { Syms : list Symbol; Exe_image : ExeImage }.

(** SelectList: main.go reads and writes its [Selected] field. *)
Record SelectList : Type := { Selected_ : Z; SelectList_rest : SelectListRest }.

(** MatchUIState: main.go writes [asm.scroll] and [src.scroll]. *)
Record MatchUIState : Type := {
  asm_scroll : Z;
  src_scroll : Z;
  MatchUI_rest : MatchUIRest;
}.

(** widget.Clickable: the clicks recorded and not yet consumed. *)
Record Clickable : Type := { clicks : list Click }.

(** Windows: the counter of the sync.WaitGroup [active]. *)
Record Windows : Type := { active : Z }.

(** MatchUIStyle, as the composite literals in [openInNew] and
    [layoutCode] fill it.  [MS_Match] is the [*Match]; [MS_State] is the
    state the [*MatchUIState] points to. *)
Record MatchUIStyle : Type := {
  MS_Theme : Theme;
  MS_Match : option nat;
  MS_State : MatchUIState;
  TextHeight : float32;
  LineHeight : float32;
}.

(** The function a window goroutine runs: [ui.Run], or
    [WidgetWindow(style.Layout)]. *)
Inductive Runner : Type :=
| RunUI
| RunWidget (style : MatchUIStyle).

(** The widgets of other files and of Gio that [UI.Layout] calls. *)
Inductive WidgetCall : Type :=
| CallSymbolsLayout
| CallMatchesLayout
| CallMatchUIStyleLayout
| CallH4 (txt : string)
| CallIconButton (descr : string).

(** The observable actions of the program. *)
Inductive Event : Type :=
| EvStderr (line : string)
| EvUsage
| EvCompile (pattern : string)
| EvParse (o : Options)
| EvParseExe (exename : string)
| EvReadFile (path : string)
| EvGo (title : string) (sizeDp : Point) (run : Runner)
| EvGoWait
| EvAppMain
| EvFillShape (c : NRGBA) (rect_max : Point)
| EvWidget (w : WidgetCall).

(** ** Computations *)

(** A computation over a state of type [St]. *)
Definition M (St T : Type) : Type := St → Res T * St * list Event.

Definition ret {St T} (a : T) : M St T := λ s, (Ret a, s, []).

Definition bind {St T U} (m : M St T) (k : T → M St U) : M St U :=
  λ s, match m s with
       | (Ret a, s1, t1) => let '(r, s2, t2) := k a s1 in (r, s2, t1 ++ t2)
       | (Exit c, s1, t1) => (Exit c, s1, t1)
       | (Panic v, s1, t1) => (Panic v, s1, t1)
       end.

#[global] Instance M_ret {St} : MRet (M St) := λ _ a, ret a.
#[global] Instance M_bind {St} : MBind (M St) := λ _ _ k m, bind m k.

Definition emit {St} (e : Event) : M St unit := λ s, (Ret (), s, [e]).
Definition os_Exit {St T} (code : Z) : M St T := λ s, (Exit code, s, []).
Definition panic {St T} (v : error) : M St T := λ s, (Panic v, s, []).
Definition get {St} : M St St := λ s, (Ret s, s, []).
Definition put {St} (s : St) : M St unit := λ _, (Ret (), s, []).
Definition modify {St} (f : St → St) : M St unit := λ s, (Ret (), f s, []).

(** Runs a computation over [St2] on the part of an [St1] that [rd] reads
    and [wr] writes. *)
Definition zoom {St1 St2 T} (rd : St1 → St2) (wr : St2 → St1 → St1)
    (m : M St2 T) : M St1 T :=
  λ s, let '(r, s2, t) := m (rd s) in (r, wr s2 s, t).

(** Runs a computation on an object [s2] of its own and returns the
    object as the computation leaves it. *)
Definition run_on {St1 St2 T} (s2 : St2) (m : M St2 T) : M St1 St2 :=
  λ s, let '(r, s2', t) := m s2 in
       (match r with Ret _ => Ret s2' | Exit c => Exit c | Panic v => Panic v end, s, t).

(** The trace, the result and the final state of a run. *)
Definition trace_of {St T} (x : Res T * St * list Event) : list Event := x.2.
Definition result_of {St T} (x : Res T * St * list Event) : Res T := x.1.1.
Definition state_of {St T} (x : Res T * St * list Event) : St := x.1.2.


(** ** The operations main.go takes from elsewhere *)

(** The Go standard library and Gio. *)
Class ExtOps : Type := {
  (** float32 arithmetic and the conversions between int and float32. *)
  f32_of_int : Z → float32;
  f32_to_int : float32 → Z;
  f32_add : float32 → float32 → float32;
  f32_mul : float32 → float32 → float32;
  f32_div : float32 → float32 → float32;
  (** unit.Metric: PxPerDp, Sp and Dp. *)
  PxPerDp : Metric → float32;
  Metric_Sp : Metric → float32 → Z;
  Metric_Dp : Metric → float32 → Z;
  (** regexp.Compile and Regexp.MatchString. *)
  regexp_Compile : string → Regexp + error;
  MatchString : Regexp → string → bool;
  (** ioutil.ReadFile, opentype.Parse, gofont.Collection, text.Normal. *)
  ioutil_ReadFile : string → list Byte.byte + error;
  opentype_Parse : list Byte.byte → Face + error;
  gofont_Collection : list FontFace;
  text_Normal : Weight;
  (** material.NewTheme, material.H4(th, txt).Layout and the layout of the
      icon button of [UI.Layout] (size 16, inset 12, in a uniform inset of
      2), which records clicks in the Clickable. *)
  material_NewTheme : list FontFace → Theme;
  H4_Layout : Theme → string → Context → Dimensions;
  IconButton_Layout : Theme → Clickable → Context → Clickable * Dimensions;
  (** layout.Flex and layout.Stack: the context a child is laid out in,
      given the dimensions of the children laid out before it, and the
      dimensions of the whole. *)
  Flex_child_gtx : Context → list Dimensions → option float32 → Context;
  Flex_dims : Context → list Dimensions → Dimensions;
  Stack_child_gtx : Context → list Dimensions → bool → Context;
  Stack_dims : Context → list Dimensions → Dimensions;
}.

(** The other files of the program. *)
Class Widgets : Type := {
  (** The zero value of the fields of MatchUIState this model leaves
      abstract. *)
  MatchUIRest_zero : MatchUIRest;
  (** VerticalSelectList and SelectList.Layout with the items
      StringListItem draws: the list may change its own state, its
      [Selected] field included. *)
  VerticalSelectList : float32 → SelectList;
  SelectList_Layout :
    SelectList → Theme → Context → Z → (Z → Res string) → Res (SelectList * Dimensions);
  (** NewSymbolList, SymbolList.SetSymbols and SymbolList.Layout. *)
  NewSymbolList : Theme → SymbolList;
  SetSymbols : SymbolList → list Symbol → SymbolList;
  SymbolList_Layout : SymbolList → Theme → Context → SymbolList * Dimensions;
  (** MatchUIStyle.Layout: draws the match the style points to and
      updates the MatchUIState the style points to. *)
  MatchUIStyle_Layout : MatchUIStyle → option Match → Context → MatchUIState * Dimensions;
}.

(** The Matcher: [Parse] and [ParseExe] return a pointer and an error. *)
Class Matcher : Type := {
  Parse : Options → option Output * option error;
  ParseExe : string → option Executable * option error;
}.

Context {EO : ExtOps} {WG : Widgets} {MT : Matcher}.

(** ** The command line *)

(** The command line after [flag.Parse]: the value given to each flag
    ([None] when the flag is omitted) and the remaining arguments. *)
Record CommandLine : Type := {
  cl_text_size : option Z;
  cl_filter : option string;
  cl_context : option Z;
  cl_font : option string;
  cl_max_matches : option Z;
  cl_args : list string;
}.

(** flag.Int and flag.String: the value given, or the default. *)
Definition flag_Int (given : option Z) (dflt : Z) : Z := default dflt given.
Definition flag_String (given : option string) (dflt : string) : string :=
  default dflt given.

(** flag.Arg(i): the i-th remaining argument, or the empty string. *)
Definition flag_Arg (args : list string) (i : nat) : string := default "" (args !! i).

(** ** Windows *)

(** Windows.Open: counts the window and starts its goroutine. *)
Definition Windows_Open (title : string) (sizeDp : Point) (run : Runner) : M Windows unit :=
  modify (λ w, {| active := active w + 1 |}) ;;
  emit (EvGo title sizeDp run).

(** ** fontCollection *)

Definition fontCollection {St} (path : string) : M St (list FontFace) :=
  let collection := gofont_Collection in
  if decide (path = "") then mret collection
  else
    emit (EvReadFile path) ;;
    match ioutil_ReadFile path with
    | inr err => panic ("failed to parse font: " +:+ err)
    | inl b =>
        match opentype_Parse b with
        | inr err => panic ("failed to parse font: " +:+ err)
        | inl face =>
            let fnt := {| Font_Variant := "Mono"; Font_Weight := text_Normal |} in
            let fface := {| FF_Font := fnt; FF_Face := face |} in
            mret (collection ++ [fface])
        end
    end.

(** ** UI *)

Record UI : Type := {
  UI_Windows : Windows;
  UI_Theme : Theme;
  UI_Output : option Output;
  UI_Matches : SelectList;
  Selected : option nat;
  MatchUI : MatchUIState;
  OpenInNew : Clickable;
  UI_Exe : option Executable;
  Symbols : SymbolList;
}.

Definition set_Windows (w : Windows) (ui : UI) : UI :=
  {| UI_Windows := w; UI_Theme := UI_Theme ui; UI_Output := UI_Output ui;
     UI_Matches := UI_Matches ui; Selected := Selected ui; MatchUI := MatchUI ui;
     OpenInNew := OpenInNew ui; UI_Exe := UI_Exe ui; Symbols := Symbols ui |}.
Definition set_Output (o : option Output) (ui : UI) : UI :=
  {| UI_Windows := UI_Windows ui; UI_Theme := UI_Theme ui; UI_Output := o;
     UI_Matches := UI_Matches ui; Selected := Selected ui; MatchUI := MatchUI ui;
     OpenInNew := OpenInNew ui; UI_Exe := UI_Exe ui; Symbols := Symbols ui |}.
Definition set_Matches (l : SelectList) (ui : UI) : UI :=
  {| UI_Windows := UI_Windows ui; UI_Theme := UI_Theme ui; UI_Output := UI_Output ui;
     UI_Matches := l; Selected := Selected ui; MatchUI := MatchUI ui;
     OpenInNew := OpenInNew ui; UI_Exe := UI_Exe ui; Symbols := Symbols ui |}.
Definition set_Selected (p : option nat) (ui : UI) : UI :=
  {| UI_Windows := UI_Windows ui; UI_Theme := UI_Theme ui; UI_Output := UI_Output ui;
     UI_Matches := UI_Matches ui; Selected := p; MatchUI := MatchUI ui;
     OpenInNew := OpenInNew ui; UI_Exe := UI_Exe ui; Symbols := Symbols ui |}.
Definition set_MatchUI (st : MatchUIState) (ui : UI) : UI :=
  {| UI_Windows := UI_Windows ui; UI_Theme := UI_Theme ui; UI_Output := UI_Output ui;
     UI_Matches := UI_Matches ui; Selected := Selected ui; MatchUI := st;
     OpenInNew := OpenInNew ui; UI_Exe := UI_Exe ui; Symbols := Symbols ui |}.
Definition set_OpenInNew (c : Clickable) (ui : UI) : UI :=
  {| UI_Windows := UI_Windows ui; UI_Theme := UI_Theme ui; UI_Output := UI_Output ui;
     UI_Matches := UI_Matches ui; Selected := Selected ui; MatchUI := MatchUI ui;
     OpenInNew := c; UI_Exe := UI_Exe ui; Symbols := Symbols ui |}.
Definition set_Exe (e : option Executable) (ui : UI) : UI :=
  {| UI_Windows := UI_Windows ui; UI_Theme := UI_Theme ui; UI_Output := UI_Output ui;
     UI_Matches := UI_Matches ui; Selected := Selected ui; MatchUI := MatchUI ui;
     OpenInNew := OpenInNew ui; UI_Exe := e; Symbols := Symbols ui |}.
Definition set_Symbols (l : SymbolList) (ui : UI) : UI :=
  {| UI_Windows := UI_Windows ui; UI_Theme := UI_Theme ui; UI_Output := UI_Output ui;
     UI_Matches := UI_Matches ui; Selected := Selected ui; MatchUI := MatchUI ui;
     OpenInNew := OpenInNew ui; UI_Exe := UI_Exe ui; Symbols := l |}.

Definition set_Selected_ (i : Z) (l : SelectList) : SelectList :=
  {| Selected_ := i; SelectList_rest := SelectList_rest l |}.
Definition set_asm_scroll (v : Z) (st : MatchUIState) : MatchUIState :=
  {| asm_scroll := v; src_scroll := src_scroll st; MatchUI_rest := MatchUI_rest st |}.
Definition set_src_scroll (v : Z) (st : MatchUIState) : MatchUIState :=
  {| asm_scroll := asm_scroll st; src_scroll := v; MatchUI_rest := MatchUI_rest st |}.

(** The zero value of MatchUIState. *)
Definition MatchUIState_zero : MatchUIState :=
  {| asm_scroll := 0; src_scroll := 0; MatchUI_rest := MatchUIRest_zero |}.

(** NewUI: the fields it does not assign keep their zero value. *)
Definition NewUI (windows : Windows) (theme : Theme) : UI :=
  {| UI_Windows := windows;
     UI_Theme := theme;
     UI_Output := None;
     UI_Matches := VerticalSelectList (f32_add (TextSize theme) (f32_of_int 4));
     Selected := None;
     MatchUI := MatchUIState_zero;
     OpenInNew := {| clicks := [] |};
     UI_Exe := None;
     Symbols := NewSymbolList theme |}.

(** UI.SetExe: [exe.Syms] dereferences [exe]. *)
Definition SetExe (exe : option Executable) : M UI unit :=
  modify (set_Exe exe) ;;
  match exe with
  | None => panic nil_deref
  | Some e => modify (λ ui, set_Symbols (SetSymbols (Symbols ui) (Syms e)) ui)
  end.

(** ** main *)

(** The result [Ret ui] stands for the program having entered [app.Main]
    with the UI state [ui], its first window goroutine started. *)
Definition main (cl : CommandLine) : M unit UI :=
  (  let textSize := flag_Int (cl_text_size cl) 12 in
  let filter := flag_String (cl_filter cl) "" in
  let context := flag_Int (cl_context cl) 3 in
  let font := flag_String (cl_font cl) "" in
  let maxMatches := flag_Int (cl_max_matches cl) 10 in
  let exename := flag_Arg (cl_args cl) 0 in
  (if decide (exename = "" ∨ filter = "") then
     emit (EvStderr "lensm -filter main <exename>") ;;
     emit EvUsage ;;
     os_Exit 1
   else mret ()) ;;
  emit (EvCompile filter) ;;
  re ← match regexp_Compile filter with
       | inr err => panic err
       | inl re => mret re
       end;
  let opts := {| Exe := exename; Filter := re; Context_ := context; MaxSymbols := maxMatches |} in
  emit (EvParse opts) ;;
  out ← (let '(out, err) := Parse opts in
         match err with Some e => panic e | None => mret out end);
  emit (EvParseExe exename) ;;
  exe ← (let '(exe, err) := ParseExe exename in
         match err with Some e => panic e | None => mret exe end);
  let windows := {| active := 0 |} in
  collection ← fontCollection font;
  let theme := material_NewTheme collection in
  let theme := Theme_set_TextSize (f32_of_int textSize) theme in
  let ui := NewUI windows theme in
  let ui := set_Output out ui in
  run_on ui
    (SetExe exe ;;
     zoom UI_Windows set_Windows (Windows_Open "lensm" (Pt 1400 900) RunUI) ;;
     emit EvGoWait ;;
     emit EvAppMain))%stdpp.

(** ** UI methods *)

(** UI.resetScroll *)
Definition resetScroll : M UI unit :=
  modify (λ ui, set_MatchUI (set_asm_scroll 100000 (MatchUI ui)) ui) ;;
  modify (λ ui, set_MatchUI (set_src_scroll 100000 (MatchUI ui)) ui).

(** [len(ui.Output.Matches)]: dereferences [ui.Output]. *)
Definition len_Matches : M UI Z :=
  ui ← get;
  match UI_Output ui with
  | None => panic nil_deref
  | Some out => mret (Z.of_nat (length (Matches out)))
  end.

(** UI.selectIndex.  The condition [target < 0 || target >= len(...)] is
    evaluated left to right and stops at the first true disjunct. *)
Definition selectIndex (target : Z) : M UI unit :=
  outside ← (if decide (target < 0) then mret true
             else n ← len_Matches; mret (bool_decide (target >= n)));
  if (outside : bool) then
    modify (set_Selected None) ;;
    modify (λ ui, set_Matches (set_Selected_ (-1) (UI_Matches ui)) ui) ;;
    resetScroll
  else
    let match_ := Z.to_nat target in
    modify (λ ui, set_Matches (set_Selected_ target (UI_Matches ui)) ui) ;;
    ui ← get;
    if decide (Selected ui = Some match_) then mret ()
    else
      modify (set_Selected (Some match_)) ;;
      resetScroll.

(** The Match a [*Match] of the UI points to. *)
Definition deref_Match (ui : UI) (p : nat) : option Match :=
  out ← UI_Output ui; Matches out !! p.

(** UI.openInNew: [state] is a copy of [ui.MatchUI]; [ui.Selected.Name]
    dereferences [ui.Selected]. *)
Definition openInNew (gtx : Context) : M UI unit :=
  ui ← get;
  let state := MatchUI ui in
  let style :=
    {| MS_Theme := UI_Theme ui;
       MS_Match := Selected ui;
       MS_State := state;
       TextHeight := TextSize (UI_Theme ui);
       LineHeight := f32_div (f32_mul (TextSize (UI_Theme ui)) (f32_of_int 14)) (f32_of_int 12) |} in
  let size := Max (Ctx_Constraints gtx) in
  let size := Pt (f32_to_int (f32_div (f32_of_int (X size)) (PxPerDp (Ctx_Metric gtx)))) (Y size) in
  let size := Pt (X size) (f32_to_int (f32_div (f32_of_int (Y size)) (PxPerDp (Ctx_Metric gtx)))) in
  name ← match Selected ui ≫= deref_Match ui with
         | None => panic nil_deref
         | Some m => mret (Name m)
         end;
  zoom UI_Windows set_Windows (Windows_Open name size (RunWidget style)).

(** The closure [func(index int) string] of [layoutMatches]. *)
Definition match_name (ui : UI) (index : Z) : Res string :=
  match UI_Output ui with
  | None => Panic nil_deref
  | Some out =>
      if decide (0 ≤ index) then
        match Matches out !! Z.to_nat index with
        | Some m => Ret (Name m)
        | None => Panic index_out_of_range
        end
      else Panic index_out_of_range
  end.

Definition lift_Res {St T} (r : Res T) : M St T := λ s, (r, s, []).

(** UI.layoutMatches *)
Definition layoutMatches (gtx : Context) : M UI Dimensions :=
  n ← len_Matches;
  ui ← get;
  emit (EvWidget CallMatchesLayout) ;;
  r ← lift_Res (SelectList_Layout (UI_Matches ui) (UI_Theme ui) gtx n (match_name ui));
  modify (set_Matches r.1) ;;
  ui ← get;
  selectIndex (Selected_ (UI_Matches ui)) ;;
  mret r.2.

(** UI.layoutCode: the style points to [ui.MatchUI] itself. *)
Definition layoutCode (gtx : Context) (match_ : option nat) : M UI Dimensions :=
  ui ← get;
  let style :=
    {| MS_Theme := UI_Theme ui;
       MS_Match := Selected ui;
       MS_State := MatchUI ui;
       TextHeight := TextSize (UI_Theme ui);
       LineHeight := f32_div (f32_mul (TextSize (UI_Theme ui)) (f32_of_int 14)) (f32_of_int 12) |} in
  emit (EvWidget CallMatchUIStyleLayout) ;;
  let r := MatchUIStyle_Layout style (Selected ui ≫= deref_Match ui) gtx in
  modify (set_MatchUI r.1) ;;
  mret r.2.

(** *** layout.Flex and layout.Stack *)

(** layout.Rigid and layout.Flexed *)
Inductive FlexChild : Type :=
| Rigid (w : Context → M UI Dimensions)
| Flexed (weight : float32) (w : Context → M UI Dimensions).

(** layout.Stacked and layout.Expanded *)
Inductive StackChild : Type :=
| Stacked (w : Context → M UI Dimensions)
| Expanded (w : Context → M UI Dimensions).

(** Flex.Layout lays out its Rigid children, in order, and then its Flexed
    children, in order. *)
Fixpoint Flex_rigid (gtx : Context) (children : list FlexChild) (laid : list Dimensions)
    : M UI (list Dimensions) :=
  match children with
  | [] => mret laid
  | Rigid w :: rest =>
      d ← w (Flex_child_gtx gtx laid None);
      Flex_rigid gtx rest (laid ++ [d])
  | Flexed _ _ :: rest => Flex_rigid gtx rest laid
  end.

Fixpoint Flex_flexed (gtx : Context) (children : list FlexChild) (laid : list Dimensions)
    : M UI (list Dimensions) :=
  match children with
  | [] => mret laid
  | Rigid _ :: rest => Flex_flexed gtx rest laid
  | Flexed weight w :: rest =>
      d ← w (Flex_child_gtx gtx laid (Some weight));
      Flex_flexed gtx rest (laid ++ [d])
  end.

Definition Flex_Layout (gtx : Context) (children : list FlexChild) : M UI Dimensions :=
  laid ← Flex_rigid gtx children [];
  laid ← Flex_flexed gtx children laid;
  mret (Flex_dims gtx laid).

(** Stack.Layout lays out its Stacked children, in order, and then its
    Expanded children, in order. *)
Fixpoint Stack_stacked (gtx : Context) (children : list StackChild) (laid : list Dimensions)
    : M UI (list Dimensions) :=
  match children with
  | [] => mret laid
  | Stacked w :: rest =>
      d ← w (Stack_child_gtx gtx laid false);
      Stack_stacked gtx rest (laid ++ [d])
  | Expanded _ :: rest => Stack_stacked gtx rest laid
  end.

Fixpoint Stack_expanded (gtx : Context) (children : list StackChild) (laid : list Dimensions)
    : M UI (list Dimensions) :=
  match children with
  | [] => mret laid
  | Stacked _ :: rest => Stack_expanded gtx rest laid
  | Expanded w :: rest =>
      d ← w (Stack_child_gtx gtx laid true);
      Stack_expanded gtx rest (laid ++ [d])
  end.

Definition Stack_Layout (gtx : Context) (children : list StackChild) : M UI Dimensions :=
  laid ← Stack_stacked gtx children [];
  laid ← Stack_expanded gtx children laid;
  mret (Stack_dims gtx laid).

(** *** UI.Layout *)

(** A [return x] that further statements follow: the statements after it
    are not run. *)
Definition return_before {St T} (x : T) (unreachable : M St T) : M St T := mret x.

(** The statements of the first child of [UI.Layout] that follow its
    [return layout.Dimensions{}]. *)
Definition Layout_symbols_rest (gtx : Context) : M UI Dimensions :=
  let gtx := with_Constraints gtx
    (layout_Exact (Pt (Metric_Sp (Ctx_Metric gtx) (f32_of_int (10 * 20)))
                      (Y (Max (Ctx_Constraints gtx))))) in
  ui ← get;
  emit (EvWidget CallSymbolsLayout) ;;
  let r := SymbolList_Layout (Symbols ui) (UI_Theme ui) gtx in
  modify (set_Symbols r.1) ;;
  mret r.2.

(** The four children of the Flex of [UI.Layout]. *)
Definition Layout_symbols (gtx : Context) : M UI Dimensions :=
  return_before Dimensions_zero (Layout_symbols_rest gtx).

Definition Layout_matches (gtx : Context) : M UI Dimensions :=
  let size := Max (Ctx_Constraints gtx) in
  let gtx := with_Constraints gtx
    (layout_Exact (Pt (Metric_Sp (Ctx_Metric gtx) (f32_of_int (10 * 20)))
                      (Y (Max (Ctx_Constraints gtx))))) in
  emit (EvFillShape secondaryBackground size) ;;
  layoutMatches gtx.

Definition Layout_splitter (gtx : Context) : M UI Dimensions :=
  let size := Pt (Metric_Dp (Ctx_Metric gtx) (f32_of_int 1)) (Y (Max (Ctx_Constraints gtx))) in
  emit (EvFillShape splitterColor size) ;;
  mret {| Size := size; Baseline := 0 |}.

Definition Layout_button (gtx : Context) : M UI Dimensions :=
  ui ← get;
  emit (EvWidget (CallIconButton "Open in separate window")) ;;
  let r := IconButton_Layout (UI_Theme ui) (OpenInNew ui) gtx in
  modify (set_OpenInNew r.1) ;;
  mret r.2.

Definition Layout_code (gtx : Context) : M UI Dimensions :=
  let gtx := with_Constraints gtx (layout_Exact (Max (Ctx_Constraints gtx))) in
  ui ← get;
  if decide (Selected ui = None) then
    emit (EvWidget (CallH4 "no matches")) ;;
    mret (H4_Layout (UI_Theme ui) "no matches" gtx)
  else
    Stack_Layout gtx
      [Expanded (λ gtx, ui ← get; layoutCode gtx (Selected ui));
       Stacked Layout_button].

(** The loop [for ui.OpenInNew.Clicked() { ui.openInNew(gtx) }]: every
    turn takes the oldest recorded click off [ui.OpenInNew]; [openInNew]
    leaves [ui.OpenInNew] as it is, so the turns follow the clicks
    recorded when the loop starts. *)
Fixpoint Layout_clicks (gtx : Context) (recorded : list Click) : M UI unit :=
  match recorded with
  | [] => mret ()
  | _ :: rest =>
      modify (set_OpenInNew {| clicks := rest |}) ;;
      openInNew gtx ;;
      Layout_clicks gtx rest
  end.

Definition Layout (gtx : Context) : M UI unit :=
  ui ← get;
  (if decide (Selected ui = None) then
     n ← len_Matches;
     if decide (n > 0) then selectIndex 0 else mret ()
   else mret ()) ;;
  ui ← get;
  Layout_clicks gtx (clicks (OpenInNew ui)) ;;
  Flex_Layout gtx
    [Rigid Layout_symbols; Rigid Layout_matches; Rigid Layout_splitter;
     Flexed (f32_of_int 1) Layout_code] ;;
  mret ().

(** *** UI.Run *)

(** The events of a window that [UI.Run] tells apart. *)
Inductive WinEvent : Type :=
| FrameEvent (gtx : Context)
| DestroyEvent (err : option error)
| OtherEvent.

(** UI.Run on the events a window has delivered so far: [Some err] when
    the loop has returned [err], [None] while it waits for the next
    event. *)
Fixpoint Run (events : list WinEvent) : M UI (option (option error)) :=
  match events with
  | [] => mret None
  | FrameEvent gtx :: rest => Layout gtx ;; Run rest
  | DestroyEvent err :: _ => mret (Some err)
  | OtherEvent :: rest => Run rest
  end.

End Lensm.

(** ** The Matcher *)

Section MatcherModel.
Context {ET : ExtTypes} {EO : ExtOps}.

(** Modelled from the spec: the Symbol Table Reader, the Disassembler
    Adapter, the Debug-Info Resolver and the Source Cache (sections 4.1 to
    4.4), none of which is in main.go, by their contracts [Load],
    [Decode], [Resolve] and [Lines]. *)
Class Components : Type := {
  Load : string → Executable + error;
  Decode : ExeImage → Symbol → list Instruction;
  Resolve : ExeImage → Instruction → option (string * Z);
  Lines : string → Z → Z → option SourceWindow;
}.

Context {CP : Components}.

(** Modelled from the spec: step 3 of section 4.5, missing with the rest
    of the Matcher.  A new run starts whenever the resolved location
    differs from the one of the previous instruction; unknown ([None]) is
    a location of its own. *)
Fixpoint group_runs (insts : list (Instruction * option (string * Z)))
    : list (option (string * Z) * list Instruction) :=
  match insts with
  | [] => []
  | (i, l) :: rest =>
      match group_runs rest with
      | (l', run) :: runs =>
          if decide (l = l') then (l, i :: run) :: runs
          else (l, [i]) :: (l', run) :: runs
      | [] => [(l, [i])]
      end
  end.

Definition make_Block (run : option (string * Z) * list Instruction) : Block :=
  {| Block_File := from_option fst "" run.1;
     Block_Line := snd <$> run.1;
     Block_Instructions := run.2 |}.

(** Modelled from the spec: steps 3 to 5 of section 4.5 for one accepted
    symbol, missing with the rest of the Matcher. *)
Definition make_Match (E : Executable) (context : Z) (sym : Symbol) : Match :=
  let insts := Decode (Exe_image E) sym in
  let runs := group_runs ((λ i, (i, Resolve (Exe_image E) i)) <$> insts) in
  {| Name := Sym_Name sym;
     Blocks := make_Block <$> runs;
     Sources := (λ run, loc ← run.1; Lines loc.1 loc.2 context) <$> runs |}.

(** Modelled from the spec: steps 1 and 2 of section 4.5, missing with the
    rest of the Matcher.  Symbols are visited in table order; the scan
    halts once [maxMatches] symbols are accepted; a symbol is accepted
    when the pattern matches its name. *)
Fixpoint accept_symbols (E : Executable) (pattern : Regexp) (context maxMatches : Z)
    (syms : list Symbol) (accepted : list Match) : list Match :=
  match syms with
  | [] => accepted
  | sym :: rest =>
      if decide (maxMatches ≤ Z.of_nat (length accepted)) then accepted
      else if MatchString pattern (Sym_Name sym)
      then accept_symbols E pattern context maxMatches rest
             (accepted ++ [make_Match E context sym])
      else accept_symbols E pattern context maxMatches rest accepted
  end.

(** Modelled from the spec: [BuildOutput] of section 4.5, the Matcher
    ([Parse] in main.go), whose code is not in main.go. *)
Definition BuildOutput (E : Executable) (pattern : Regexp) (context maxMatches : Z) : Output :=
  {| Matches := accept_symbols E pattern context maxMatches (Syms E) [] |}.

(** Modelled from the spec: [Parse] loads the executable named by the
    options and builds the Output; [ParseExe] loads the executable
    (section 3, Lifecycle).  Neither function is in main.go. *)
Definition Parse_model (o : Options) : option Output * option error :=
  match Load (Exe o) with
  | inr err => (None, Some err)
  | inl E => (Some (BuildOutput E (Filter o) (Context_ o) (MaxSymbols o)), None)
  end.

Definition ParseExe_model (exename : string) : option Executable * option error :=
  match Load exename with
  | inr err => (None, Some err)
  | inl E => (Some E, None)
  end.

Definition Matcher_model : Matcher :=
  {| Parse := Parse_model; ParseExe := ParseExe_model |}.

(** The symbols of [E] whose name the pattern matches. *)
Definition matching (pattern : Regexp) (syms : list Symbol) : list Symbol :=
  filter (λ sym, MatchString pattern (Sym_Name sym) = true) syms.

End MatcherModel.

(** ** Further definitions used to state the properties *)

Section Statements.
Context {ET : ExtTypes} {EO : ExtOps} {WG : Widgets} {MT : Matcher}.

(** The events that stand for an analysis of the executable. *)
Definition is_analysis (e : Event) : bool :=
  match e with
  | EvParse _ | EvParseExe _ => true
  | _ => false
  end.

(** The events that stand for a part of the user interface. *)
Definition is_ui (e : Event) : bool :=
  match e with
  | EvGo _ _ _ | EvGoWait | EvAppMain | EvFillShape _ _ | EvWidget _ => true
  | _ => false
  end.

(** The Options [main] builds from a command line and a compiled filter. *)
Definition main_Options (cl : CommandLine) (re : Regexp) : Options :=
  {| Exe := flag_Arg (cl_args cl) 0;
     Filter := re;
     Context_ := flag_Int (cl_context cl) 3;
     MaxSymbols := flag_Int (cl_max_matches cl) 10 |}.

(** The error, if any, that keeps the file at [path] from being used as a
    font: the one of ioutil.ReadFile, or else the one of opentype.Parse. *)
Definition font_error (path : string) : option error :=
  match ioutil_ReadFile path with
  | inr err => Some err
  | inl b => match opentype_Parse b with
             | inr err => Some err
             | inl _ => None
             end
  end.

(** The two operations of the presentation layer section 6 of the
    specification names, and a sequence of them run on a UI. *)
Inductive UIOp : Type :=
| OpSelectIndex (target : Z)
| OpOpenInNew (gtx : Context).

Definition run_op (op : UIOp) : M UI unit :=
  match op with
  | OpSelectIndex target => selectIndex target
  | OpOpenInNew gtx => openInNew gtx
  end.

Fixpoint run_ops (ops : list UIOp) : M UI unit :=
  match ops with
  | [] => mret ()
  | op :: rest => run_op op ;; run_ops rest
  end.

(** The state [selectIndex] leaves when the target is out of range. *)
Definition cleared (ui : UI) : UI :=
  let ui := set_Selected None ui in
  let ui := set_Matches (set_Selected_ (-1) (UI_Matches ui)) ui in
  let ui := set_MatchUI (set_asm_scroll 100000 (MatchUI ui)) ui in
  set_MatchUI (set_src_scroll 100000 (MatchUI ui)) ui.

(** The state [selectIndex] leaves when the target is in range and is not
    the selected match. *)
Definition selected (target : Z) (ui : UI) : UI :=
  let ui := set_Matches (set_Selected_ target (UI_Matches ui)) ui in
  let ui := set_Selected (Some (Z.to_nat target)) ui in
  let ui := set_MatchUI (set_asm_scroll 100000 (MatchUI ui)) ui in
  set_MatchUI (set_src_scroll 100000 (MatchUI ui)) ui.



(** [m] emits only events that satisfy [P]. *)
Definition emits_only {St T} (P : Event → Prop) (m : M St T) : Prop :=
  ∀ s, Forall P (trace_of (m s)).

(** [m] leaves the part [f] of the state as it is. *)
Definition keeps {St T V} (f : St → V) (m : M St T) : Prop :=
  ∀ s, f (state_of (m s)) = f s.

(** Every widget of a Flex, or of a Stack, emits only events that satisfy
    [P], in whatever context it is laid out. *)
Definition child_emits_only (P : Event → Prop) (c : FlexChild) : Prop :=
  match c with
  | Rigid w | Flexed _ w => ∀ gtx, emits_only P (w gtx)
  end.

Definition stack_child_emits_only (P : Event → Prop) (c : StackChild) : Prop :=
  match c with
  | Stacked w | Expanded w => ∀ gtx, emits_only P (w gtx)
  end.

(** The events other than a call of [ui.Symbols.Layout]. *)
Definition not_symbols (e : Event) : Prop := e ≠ EvWidget CallSymbolsLayout.

(** The [*Match] of the UI, when it is not nil, points to a Match of
    [ui.Output]. *)
Definition Selected_valid (ui : UI) : Prop :=
  ∀ i, Selected ui = Some i → is_Some (deref_Match ui i).

End Statements.

(** ** WidgetWindow and further notions *)

Section Further.
Context {ET : ExtTypes} {EO : ExtOps} {WG : Widgets} {MT : Matcher}.

(** WidgetWindow: the function it returns, run on the events a window has
    delivered so far, over whatever state the widget works on.  The result
    is as for [Run]. *)
Fixpoint WidgetWindow {St} (widget : Context → M St Dimensions) (events : list WinEvent)
    : M St (option (option error)) :=
  match events with
  | [] => mret None
  | FrameEvent gtx :: rest => widget gtx ;; WidgetWindow widget rest
  | DestroyEvent err :: _ => mret (Some err)
  | OtherEvent :: rest => WidgetWindow widget rest
  end.

(** [ui.Layout] as a layout.Widget: it reports no dimensions. *)
Definition Layout_widget (gtx : Context) : M UI Dimensions :=
  Layout gtx ;; mret Dimensions_zero.

(** The MatchUIStyle and the size in dp that [openInNew] computes. *)
Definition window_style (ui : UI) : MatchUIStyle :=
  {| MS_Theme := UI_Theme ui;
     MS_Match := Selected ui;
     MS_State := MatchUI ui;
     TextHeight := TextSize (UI_Theme ui);
     LineHeight := f32_div (f32_mul (TextSize (UI_Theme ui)) (f32_of_int 14)) (f32_of_int 12) |}.

Definition window_size (gtx : Context) : Point :=
  Pt (f32_to_int (f32_div (f32_of_int (X (Max (Ctx_Constraints gtx)))) (PxPerDp (Ctx_Metric gtx))))
     (f32_to_int (f32_div (f32_of_int (Y (Max (Ctx_Constraints gtx)))) (PxPerDp (Ctx_Metric gtx)))).

(** The index the list shows as selected and the [*Match] agree: both say
    that nothing is selected, or both name the same Match of
    [ui.Output]. *)
Definition selection_consistent (ui : UI) : Prop :=
  (Selected ui = None ∧ Selected_ (UI_Matches ui) = -1) ∨
  (∃ i m, Selected ui = Some i ∧ Selected_ (UI_Matches ui) = Z.of_nat i ∧
          deref_Match ui i = Some m).

(** The part of the UI state that [selection_consistent] reads. *)
Definition selection_view (ui : UI) : option nat * Z * option Output :=
  (Selected ui, Selected_ (UI_Matches ui), UI_Output ui).

(** The part of the UI state that [UI.SetExe] writes. *)
Definition exe_view (ui : UI) : option Executable * SymbolList :=
  (UI_Exe ui, Symbols ui).

(** The UI state [main] builds before it opens the first window. *)
Definition main_ui (cl : CommandLine) (fonts : list FontFace) (out : option Output)
    (exe : Executable) : UI :=
  let theme := Theme_set_TextSize (f32_of_int (flag_Int (cl_text_size cl) 12))
                 (material_NewTheme fonts) in
  let ui := set_Output out (NewUI {| active := 0 |} theme) in
  let ui := set_Exe (Some exe) ui in
  set_Symbols (SetSymbols (Symbols ui) (Syms exe)) ui.

(** [m], started in a state that satisfies [P], when it returns [a] does so
    in a state [s] and with a trace [t] such that [Q a s t]. *)
Definition triple {St T} (P : St → Prop) (m : M St T)
    (Q : T → St → list Event → Prop) : Prop :=
  ∀ s a s' t, P s → m s = (Ret a, s', t) → Q a s' t.

(** The events other than a call of MatchUIStyle.Layout. *)
Definition not_code (e : Event) : Prop := e ≠ EvWidget CallMatchUIStyleLayout.

(** No event of [events] is a DestroyEvent. *)
Definition no_Destroy (events : list WinEvent) : Prop :=
  Forall (λ e, match e with DestroyEvent _ => False | _ => True end) events.

End Further.

(** ** A concrete program environment

    One instance of every interface, on which the statements below are
    evaluated. *)
Module Demo.

Definition types : ExtTypes :=
  {| float32 := Z; Metric := Z; Regexp := string; Face := list Byte.byte;
     Weight := Z; ThemeRest := nat; SelectListRest := unit;
     MatchUIRest := unit; SymbolList := list Symbol; Click := unit;
     ExeImage := unit; Instruction := Z; SourceWindow := Z * Z |}.
#[local] Existing Instance types.

(** A pattern is compiled to itself and matches the names it is a prefix
    of; the pattern "(" does not compile.  The only font file is
    "mono.ttf"; "notes.txt" is a file that is not a font. *)
Definition ops : ExtOps :=
  {| f32_of_int := λ z, z;
     f32_to_int := λ z, z;
     f32_add := Z.add;
     f32_mul := Z.mul;
     f32_div := Z.quot;
     PxPerDp := λ m, m;
     Metric_Sp := λ m v, m * v;
     Metric_Dp := λ m v, m * v;
     regexp_Compile := λ p,
       if decide (p = "(") then inr "error parsing regexp: missing closing )"
       else inl p;
     MatchString := λ re name, String.prefix re name;
     ioutil_ReadFile := λ path,
       if decide (path = "mono.ttf") then inl [x00; x01; x00; x00]
       else if decide (path = "notes.txt") then inl []
       else inr ("open " +:+ path +:+ ": no such file or directory");
     opentype_Parse := λ b,
       match b with
       | [] => inr "sfnt: invalid font"
       | _ => inl b
       end;
     gofont_Collection := [];
     text_Normal := 0;
     material_NewTheme := λ fonts, {| TextSize := 16; Theme_rest := length fonts |};
     H4_Layout := λ _ _ gtx, {| Size := Max (Ctx_Constraints gtx); Baseline := 0 |};
     IconButton_Layout := λ _ c _, (c, {| Size := Pt 40 40; Baseline := 0 |});
     Flex_child_gtx := λ gtx _ _, gtx;
     Flex_dims := λ gtx _, {| Size := Max (Ctx_Constraints gtx); Baseline := 0 |};
     Stack_child_gtx := λ gtx _ _, gtx;
     Stack_dims := λ gtx _, {| Size := Max (Ctx_Constraints gtx); Baseline := 0 |} |}.
#[local] Existing Instance ops.

(** Modelled from the spec: MatchUIStyle.Layout, which is not in main.go.
    Section 2 gives the Selection/Scroll State independent scroll offsets
    for the two panes; here a frame in which the user scrolls the
    assembly pane by one step moves [asm.scroll] and leaves [src.scroll]. *)
Definition scroll_assembly_pane (style : MatchUIStyle) (m : option Match)
    (gtx : Context) : MatchUIState * Dimensions :=
  (set_asm_scroll (asm_scroll (MS_State style) + 1) (MS_State style),
   {| Size := Max (Ctx_Constraints gtx); Baseline := 0 |}).

Definition widgets : Widgets :=
  {| MatchUIRest_zero := ();
     VerticalSelectList := λ _, {| Selected_ := 0; SelectList_rest := () |};
     SelectList_Layout := λ l _ _ _ _, Ret (l, Dimensions_zero);
     NewSymbolList := λ _, [];
     SetSymbols := λ _ syms, syms;
     SymbolList_Layout := λ l _ _, (l, Dimensions_zero);
     MatchUIStyle_Layout := scroll_assembly_pane |}.
#[local] Existing Instance widgets.

(** The executable "a.out" holds the symbols main.foo, main.bar and
    helper; no other file is an executable. *)
Definition a_out : Executable :=
  {| Syms := [ {| Sym_Name := "main.foo"; Sym_Addr := 4096; Sym_Size := 6; Sym_Section := 1 |};
               {| Sym_Name := "main.bar"; Sym_Addr := 4102; Sym_Size := 2; Sym_Section := 1 |};
               {| Sym_Name := "helper"; Sym_Addr := 4104; Sym_Size := 0; Sym_Section := 1 |} ];
     Exe_image := () |}.

Definition components : Components :=
  {| Load := λ path,
       if decide (path = "a.out") then inl a_out
       else inr ("open " +:+ path +:+ ": no such file or directory");
     Decode := λ _ sym, (λ k, Sym_Addr sym + Z.of_nat k) <$> seq 0 (Z.to_nat (Sym_Size sym));
     Resolve := λ _ i, if decide (i < 4102) then Some ("main.go", 10 + (i - 4096) `div` 2) else None;
     Lines := λ _ line context, Some (Z.max 1 (line - context), line + context) |}.
#[local] Existing Instance components.

Definition matcher : Matcher := Matcher_model.
#[local] Existing Instance matcher.

(** The compiled pattern "main." *)
Definition re_main : Regexp := ("main." : string).

(** lensm -filter main. a.out *)
Definition cl_main : CommandLine :=
  {| cl_text_size := None; cl_filter := Some "main."; cl_context := None;
     cl_font := None; cl_max_matches := None; cl_args := ["a.out"] |}.


(** lensm -filter ( a.out *)
Definition cl_bad_pattern : CommandLine :=
  {| cl_text_size := None; cl_filter := Some "("; cl_context := None;
     cl_font := None; cl_max_matches := None; cl_args := ["a.out"] |}.

(** lensm -filter main. b.out *)
Definition cl_bad_exe : CommandLine :=
  {| cl_text_size := None; cl_filter := Some "main."; cl_context := None;
     cl_font := None; cl_max_matches := None; cl_args := ["b.out"] |}.

(** lensm -filter main. -font notes.txt a.out *)
Definition cl_bad_font : CommandLine :=
  {| cl_text_size := None; cl_filter := Some "main."; cl_context := None;
     cl_font := Some "notes.txt"; cl_max_matches := None; cl_args := ["a.out"] |}.

(** A frame of 1400 by 900 pixels at one pixel per dp. *)
Definition gtx0 : Context :=
  {| Ctx_Constraints := {| Min := Pt 0 0; Max := Pt 1400 900 |}; Ctx_Metric := 1 |}.

(** The Output of the Matcher for [cl_main], and the UI state [main]
    enters [app.Main] with. *)
Definition out_main : Output := BuildOutput a_out re_main 3 10.

Definition ui_start : UI :=
  let ui := NewUI {| active := 0 |} {| TextSize := 12; Theme_rest := 0%nat |} in
  let ui := set_Output (Some out_main) ui in
  let ui := set_Exe (Some a_out) ui in
  let ui := set_Symbols (Syms a_out) ui in
  set_Windows {| active := 1 |} ui.

(** [ui_start] after its first frame. *)
Definition ui_frame1 : UI := state_of (Run [FrameEvent gtx0] ui_start).

(** A Matcher whose [ParseExe] returns neither an executable nor an
    error. *)
Definition matcher_nil_exe : Matcher :=
  {| Parse := Parse_model; ParseExe := λ _, (None, None) |}.

(** [ui_start] with match 1 selected and two clicks on the button
    recorded. *)
Definition ui_clicked : UI :=
  set_OpenInNew {| clicks := [(); ()] |} (selected 1 ui_start).

(** [ui_start] without an Output, and with an Output without matches. *)
Definition ui_nil_Output : UI := set_Output None ui_start.
Definition ui_no_matches : UI := set_Output (Some {| Matches := [] |}) ui_start.

(** lensm -filter main. -font mono.ttf -text-size 14 a.out *)
Definition cl_font : CommandLine :=
  {| cl_text_size := Some 14; cl_filter := Some "main."; cl_context := None;
     cl_font := Some "mono.ttf"; cl_max_matches := None; cl_args := ["a.out"] |}.

End Demo.

(** ** Properties *)

(** Unfolds the operations of the computation monad. *)
Ltac run :=
  cbv [mbind mret M_bind M_ret bind ret get put modify emit panic os_Exit
       zoom lift_Res run_on trace_of result_of state_of].

Section Facts.
Context {ET : ExtTypes} {EO : ExtOps} {WG : Widgets} {MT : Matcher}.

(** *** The computation monad *)

Lemma bind_run {St T U} (m : M St T) (k : T → M St U) (s : St) :
  (m ≫= k) s =
  match m s with
  | (Ret a, s1, t1) => let '(r, s2, t2) := k a s1 in (r, s2, t1 ++ t2)
  | (Exit c, s1, t1) => (Exit c, s1, t1)
  | (Panic v, s1, t1) => (Panic v, s1, t1)
  end.
Proof. reflexivity. Qed.

Lemma keeps_bind {St T U V} (f : St → V) (m : M St T) (k : T → M St U) :
  keeps f m → (∀ a, keeps f (k a)) → keeps f (m ≫= k).
Proof.
  intros Hm Hk s. specialize (Hm s). unfold keeps, state_of in *.
  rewrite bind_run. destruct (m s) as [[[a|c|v] s1] t1]; simpl in *; auto.
  specialize (Hk a s1). destruct (k a s1) as [[r s2] t2]; simpl in *.
  congruence.
Qed.

Lemma emits_only_bind {St T U} (P : Event → Prop) (m : M St T) (k : T → M St U) :
  emits_only P m → (∀ a, emits_only P (k a)) → emits_only P (m ≫= k).
Proof.
  intros Hm Hk s. specialize (Hm s). unfold emits_only, trace_of in *.
  rewrite bind_run. destruct (m s) as [[[a|c|v] s1] t1]; simpl in *; auto.
  specialize (Hk a s1). destruct (k a s1) as [[r s2] t2]; simpl in *.
  by apply Forall_app.
Qed.

Lemma keeps_ret {St T V} (f : St → V) (a : T) : keeps f (mret a : M St T).
Proof. by intros s. Qed.
Lemma keeps_get {St V} (f : St → V) : keeps f (get : M St St).
Proof. by intros s. Qed.
Lemma keeps_emit {St V} (f : St → V) e : keeps f (emit e : M St unit).
Proof. by intros s. Qed.
Lemma keeps_panic {St T V} (f : St → V) v : keeps f (panic v : M St T).
Proof. by intros s. Qed.
Lemma keeps_modify {St V} (f : St → V) (g : St → St) :
  (∀ s, f (g s) = f s) → keeps f (modify g).
Proof. intros H s. apply H. Qed.
Lemma keeps_lift_Res {St T V} (f : St → V) (r : Res T) : keeps f (lift_Res r : M St T).
Proof. by intros s. Qed.
Lemma keeps_zoom {St1 St2 T V} (f : St1 → V) rd wr (m : M St2 T) :
  (∀ s2 s, f (wr s2 s) = f s) → keeps f (zoom rd wr m).
Proof.
  intros H s. unfold zoom, state_of. destruct (m (rd s)) as [[r s2] t]. apply H.
Qed.

Lemma emits_only_ret {St T} P (a : T) : emits_only P (mret a : M St T).
Proof. intros s. constructor. Qed.
Lemma emits_only_get {St} P : emits_only P (get : M St St).
Proof. intros s. constructor. Qed.
Lemma emits_only_emit {St} (P : Event → Prop) e : P e → emits_only P (emit e : M St unit).
Proof. intros H s. by constructor. Qed.
Lemma emits_only_panic {St T} P v : emits_only P (panic v : M St T).
Proof. intros s. constructor. Qed.
Lemma emits_only_os_Exit {St T} P c : emits_only P (os_Exit c : M St T).
Proof. intros s. constructor. Qed.
Lemma emits_only_modify {St} P (g : St → St) : emits_only P (modify g).
Proof. intros s. constructor. Qed.
Lemma emits_only_lift_Res {St T} P (r : Res T) : emits_only P (lift_Res r : M St T).
Proof. intros s. constructor. Qed.
Lemma emits_only_zoom {St1 St2 T} P (rd : St1 → St2) wr (m : M St2 T) :
  emits_only P m → emits_only P (zoom rd wr m).
Proof.
  intros H s. specialize (H (rd s)). unfold zoom, trace_of in *.
  by destruct (m (rd s)) as [[r s2] t].
Qed.
Lemma emits_only_run_on {St1 St2 T} P (s2 : St2) (m : M St2 T) :
  emits_only P m → emits_only P (run_on s2 m : M St1 St2).
Proof.
  intros H s. specialize (H s2). unfold run_on, trace_of in *.
  by destruct (m s2) as [[r s2'] t].
Qed.



(** Breaks a goal about a computation down along its structure. *)
Ltac step :=
  first
    [ apply keeps_bind | apply keeps_ret | apply keeps_get | apply keeps_emit
    | apply keeps_panic | apply keeps_lift_Res
    | apply keeps_modify; intros []; reflexivity
    | apply keeps_zoom; intros ? []; reflexivity
    | apply emits_only_bind | apply emits_only_ret | apply emits_only_get
    | apply emits_only_panic | apply emits_only_os_Exit | apply emits_only_modify
    | apply emits_only_lift_Res | apply emits_only_zoom | apply emits_only_run_on
    | apply emits_only_emit; first [reflexivity | discriminate | by intros ? [= <-]]
    | match goal with
      | |- keeps _ (if ?c then _ else _) => destruct c
      | |- keeps _ (match ?x with _ => _ end) => destruct x
      | |- keeps _ (let _ := _ in _) => cbv zeta
      | |- emits_only _ (if ?c then _ else _) => destruct c
      | |- emits_only _ (match ?x with _ => _ end) => destruct x
      | |- emits_only _ (let _ := _ in _) => cbv zeta
      | |- ∀ _, _ => intro
      end ].
Ltac steps := repeat step.

Lemma resetScroll_keeps_Output : keeps UI_Output resetScroll.
Proof. unfold resetScroll. steps. Qed.

Lemma len_Matches_keeps {V} (f : UI → V) : keeps f len_Matches.
Proof. unfold len_Matches. steps. Qed.

Lemma selectIndex_keeps_Output target : keeps UI_Output (selectIndex target).
Proof. unfold selectIndex, resetScroll, len_Matches. steps. Qed.

Lemma Windows_Open_emits title size run :
  emits_only (λ e, is_analysis e = false) (Windows_Open title size run).
Proof. unfold Windows_Open. steps. Qed.

Lemma openInNew_keeps_Output gtx : keeps UI_Output (openInNew gtx).
Proof. unfold openInNew. steps. Qed.

Lemma selectIndex_no_analysis target :
  emits_only (λ e, is_analysis e = false) (selectIndex target).
Proof. unfold selectIndex, resetScroll, len_Matches. steps. Qed.

Lemma openInNew_no_analysis gtx :
  emits_only (λ e, is_analysis e = false) (openInNew gtx).
Proof. unfold openInNew, Windows_Open. steps. Qed.

(** C3.  [selectIndex] ("select match by index") and [openInNew] ("open
    current match in a new view") only consume the Output: whatever
    sequence of the two is run on a UI, the Output the UI holds afterwards
    (every Match in it included) is the Output it held before, and no
    step of the run calls [Parse] or [ParseExe].  A run stops at the
    first step that panics; the statement covers the state it stops in. *)
Theorem select_and_open_consume_Output (ops : list UIOp) (ui : UI) :
  UI_Output (state_of (run_ops ops ui)) = UI_Output ui ∧
  Forall (λ e, is_analysis e = false) (trace_of (run_ops ops ui)).
Proof.
  split.
  - revert ui. change (keeps UI_Output (run_ops ops)).
    induction ops as [|[target|gtx] ops IH]; simpl.
    + apply keeps_ret.
    + apply keeps_bind; [apply selectIndex_keeps_Output | done].
    + apply keeps_bind; [apply openInNew_keeps_Output | done].
  - revert ui. change (emits_only (λ e, is_analysis e = false) (run_ops ops)).
    induction ops as [|[target|gtx] ops IH]; simpl.
    + apply emits_only_ret.
    + apply emits_only_bind; [apply selectIndex_no_analysis | done].
    + apply emits_only_bind; [apply openInNew_no_analysis | done].
Qed.

(** *** selectIndex *)

Lemma cleared_fields (ui : UI) :
  Selected (cleared ui) = None ∧
  Selected_ (UI_Matches (cleared ui)) = -1 ∧
  asm_scroll (MatchUI (cleared ui)) = 100000 ∧
  src_scroll (MatchUI (cleared ui)) = 100000.
Proof. by destruct ui. Qed.

Lemma selected_fields (target : Z) (ui : UI) :
  Selected (selected target ui) = Some (Z.to_nat target) ∧
  Selected_ (UI_Matches (selected target ui)) = target ∧
  asm_scroll (MatchUI (selected target ui)) = 100000 ∧
  src_scroll (MatchUI (selected target ui)) = 100000.
Proof. by destruct ui. Qed.

(** C8.  On a UI that holds an Output, [selectIndex] returns for every
    integer target and never panics.  For a target outside
    [0, len(Output.Matches)) it sets [Selected] to nil and
    [Matches.Selected] to -1 and resets both scroll offsets (to 100000);
    for a target in range that is the selected match already it only
    stores the target in [Matches.Selected], the scroll offsets and every
    other field staying as they are; for any other target in range it
    makes that match the selected one and resets both scroll offsets. *)
Theorem selectIndex_cases (ui : UI) (out : Output) (target : Z) :
  UI_Output ui = Some out →
  let n := Z.of_nat (length (Matches out)) in
  (target < 0 ∨ n ≤ target →
     selectIndex target ui = (Ret (), cleared ui, []) ∧
     Selected (cleared ui) = None ∧
     Selected_ (UI_Matches (cleared ui)) = -1 ∧
     asm_scroll (MatchUI (cleared ui)) = 100000 ∧
     src_scroll (MatchUI (cleared ui)) = 100000) ∧
  (0 ≤ target < n → Selected ui = Some (Z.to_nat target) →
     selectIndex target ui =
       (Ret (), set_Matches (set_Selected_ target (UI_Matches ui)) ui, [])) ∧
  (0 ≤ target < n → Selected ui ≠ Some (Z.to_nat target) →
     selectIndex target ui = (Ret (), selected target ui, []) ∧
     Selected (selected target ui) = Some (Z.to_nat target) ∧
     asm_scroll (MatchUI (selected target ui)) = 100000 ∧
     src_scroll (MatchUI (selected target ui)) = 100000).
Proof.
  intros Hout n. unfold selectIndex, len_Matches, resetScroll.
  split; [|split].
  - intros Hrange. split; [|apply cleared_fields].
    run. destruct (decide (target < 0)) as [|Hge]; [done|].
    rewrite Hout. rewrite bool_decide_eq_true_2 by (fold n; lia). done.
  - intros Hrange Hsel.
    run. destruct (decide (target < 0)); [lia|].
    rewrite Hout. rewrite bool_decide_eq_false_2 by (fold n; lia).
    cbn. destruct (decide _) as [|Hne]; [done|].
    destruct ui; simpl in *; congruence.
  - intros Hrange Hsel. split; [|split; [|split]]; try apply selected_fields.
    run. destruct (decide (target < 0)); [lia|].
    rewrite Hout. rewrite bool_decide_eq_false_2 by (fold n; lia).
    cbn. destruct (decide _) as [Heq|]; [|done].
    destruct ui; simpl in *; congruence.
Qed.

(** With no Output, a negative target still clears the selection; any
    other target dereferences the nil [ui.Output]. *)
Lemma selectIndex_nil_Output (ui : UI) (target : Z) :
  UI_Output ui = None →
  selectIndex target ui =
    if decide (target < 0) then (Ret (), cleared ui, [])
    else (Panic nil_deref, ui, []).
Proof.
  intros Hout. unfold selectIndex, len_Matches, resetScroll. run.
  destruct (decide (target < 0)); [done|]. by rewrite Hout.
Qed.

(** Whatever the state before, a [selectIndex] that returns leaves a
    [Selected] that is nil or points into [ui.Output.Matches]. *)
Lemma selectIndex_Selected_valid (ui : UI) (target : Z) :
  result_of (selectIndex target ui) = Ret () →
  Selected_valid (state_of (selectIndex target ui)).
Proof.
  unfold selectIndex, len_Matches, resetScroll, Selected_valid, deref_Match. run.
  destruct (decide (target < 0)); [by intros _ i [=]|].
  destruct (UI_Output ui) as [out|] eqn:Hout; [|done].
  destruct (bool_decide (target >= _)) eqn:Hb; [by intros _ i [=]|].
  apply bool_decide_eq_false in Hb. cbn.
  assert (Hlt : (Z.to_nat target < length (Matches out))%nat) by lia.
  destruct (decide _) as [Heq|Hne]; cbn; intros _ i Hi; rewrite Hout; simpl.
  - rewrite Heq in Hi. injection Hi as <-. by apply lookup_lt_is_Some.
  - injection Hi as <-. by apply lookup_lt_is_Some.
Qed.

(** With a valid, non-nil [Selected], [openInNew] opens a window named
    after the selected match and returns. *)
Lemma openInNew_returns (gtx : Context) (ui : UI) (i : nat) :
  Selected_valid ui → Selected ui = Some i →
  ∃ m size style,
    deref_Match ui i = Some m ∧
    openInNew gtx ui =
      (Ret (), set_Windows {| active := active (UI_Windows ui) + 1 |} ui,
       [EvGo (Name m) size (RunWidget style)]).
Proof.
  intros Hv Hi. destruct (Hv i Hi) as [m Hm]. exists m.
  unfold openInNew, Windows_Open. run. rewrite Hi. simpl. rewrite Hm. cbn.
  by eexists _, _.
Qed.

(** *** main *)


(** An absent executable path reads as the empty string. *)
Lemma flag_Arg_absent : flag_Arg [] 0 = "".
Proof. reflexivity. Qed.

(** C5.  A filter pattern that does not compile is fatal: the run ends
    before any analysis of the executable, with neither [Parse] nor
    [ParseExe] called.  It ends in a panic that carries the error of
    [regexp.Compile] whenever the executable path and the pattern are
    non-empty (otherwise in the usage error, with status 1). *)
Theorem main_invalid_pattern (cl : CommandLine) (err : error) :
  regexp_Compile (flag_String (cl_filter cl) "") = inr err →
  (result_of (main cl ()) = Exit 1 ∨ result_of (main cl ()) = Panic err) ∧
  (flag_Arg (cl_args cl) 0 ≠ "" → flag_String (cl_filter cl) "" ≠ "" →
     main cl () = (Panic err, (), [EvCompile (flag_String (cl_filter cl) "")])) ∧
  Forall (λ e, is_analysis e = false) (trace_of (main cl ())).
Proof.
  intros H. unfold main. cbv zeta. run.
  destruct (decide _) as [Hu|Hn]; cbn.
  - split; [by left|]. split; [tauto|]. by repeat constructor.
  - rewrite H. cbn. split; [by right|]. split; [done|]. by repeat constructor.
Qed.

(** C6.  When [Parse] returns an error, or [Parse] succeeds and
    [ParseExe] returns an error, the program panics with that error: it
    never enters [app.Main] with a UI, opens no window and lays out
    nothing. *)
Theorem main_format_error (cl : CommandLine) (re : Regexp) (e : error) :
  flag_Arg (cl_args cl) 0 ≠ "" →
  flag_String (cl_filter cl) "" ≠ "" →
  regexp_Compile (flag_String (cl_filter cl) "") = inl re →
  (Parse (main_Options cl re)).2 = Some e ∨
  ((Parse (main_Options cl re)).2 = None ∧
   (ParseExe (flag_Arg (cl_args cl) 0)).2 = Some e) →
  result_of (main cl ()) = Panic e ∧
  Forall (λ ev, is_ui ev = false) (trace_of (main cl ())).
Proof.
  intros Hexe Hfilter Hre Hfail. unfold main, main_Options in *. cbv zeta. run.
  destruct (decide _) as [|_]; [tauto|]. cbn. rewrite Hre. cbn.
  destruct (Parse _) as [out perr]. simpl in Hfail.
  destruct Hfail as [->|[-> Hfail]]; cbn.
  - split; [done|]. by repeat constructor.
  - destruct (ParseExe _) as [exe xerr]. simpl in Hfail. subst xerr. cbn.
    split; [done|]. by repeat constructor.
Qed.



(** *** fontCollection *)

(** C9.  [fontCollection] returns the gofont collection as it is for the
    empty path.  For a non-empty path whose file cannot be read, or
    cannot be parsed as an OpenType font, it panics; and so does the whole
    program when that path is the value of -font, even though all of the
    analysis has succeeded. *)
Theorem fontCollection_cases (path : string) :
  (path = "" →
     ∀ St (s : St), fontCollection path s = (Ret gofont_Collection, s, [])) ∧
  (path ≠ "" →
     ∀ err, font_error path = Some err →
       (∀ St (s : St),
          fontCollection path s =
            (Panic ("failed to parse font: " +:+ err), s, [EvReadFile path])) ∧
       (∀ cl re out exe,
          flag_String (cl_font cl) "" = path →
          flag_Arg (cl_args cl) 0 ≠ "" →
          flag_String (cl_filter cl) "" ≠ "" →
          regexp_Compile (flag_String (cl_filter cl) "") = inl re →
          Parse (main_Options cl re) = (out, None) →
          ParseExe (flag_Arg (cl_args cl) 0) = (exe, None) →
          result_of (main cl ()) = Panic ("failed to parse font: " +:+ err))).
Proof.
  assert (Hfont : path ≠ "" → ∀ err, font_error path = Some err →
            ∀ St (s : St), fontCollection path s =
              (Panic ("failed to parse font: " +:+ err), s, [EvReadFile path])).
  { intros Hpath err Herr St s. unfold fontCollection, font_error in *. run.
    destruct (decide _) as [|_]; [done|].
    destruct (ioutil_ReadFile path) as [b|e1]; [|by simplify_eq].
    destruct (opentype_Parse b) as [face|e2]; by simplify_eq. }
  split.
  - intros -> St s. unfold fontCollection. by rewrite decide_True.
  - intros Hpath err Herr. split; [by apply Hfont|].
    intros cl re out exe Hcl Hexe Hfilter Hre Hparse Hparseexe.
    unfold main, main_Options in *. cbv zeta. run.
    destruct (decide _) as [|_]; [tauto|]. cbn.
    rewrite Hre. cbn. rewrite Hparse. cbn. rewrite Hparseexe. cbn.
    rewrite Hcl. by rewrite (Hfont Hpath err Herr).
Qed.

(** *** Layout *)

Lemma Flex_Layout_emits P gtx children :
  Forall (child_emits_only P) children → emits_only P (Flex_Layout gtx children).
Proof.
  intros H. unfold Flex_Layout. apply emits_only_bind; [|intros laid; apply emits_only_bind].
  - generalize (@nil Dimensions).
    induction H as [|[w|? w] children Hw _ IH]; intros laid; simpl; steps; auto.
  - revert laid.
    induction H as [|[w|? w] children Hw _ IH]; intros laid; simpl; steps; auto.
  - steps.
Qed.

Lemma Stack_Layout_emits P gtx children :
  Forall (stack_child_emits_only P) children → emits_only P (Stack_Layout gtx children).
Proof.
  intros H. unfold Stack_Layout. apply emits_only_bind; [|intros laid; apply emits_only_bind].
  - generalize (@nil Dimensions).
    induction H as [|[w|w] children Hw _ IH]; intros laid; simpl; steps; auto.
  - revert laid.
    induction H as [|[w|w] children Hw _ IH]; intros laid; simpl; steps; auto.
  - steps.
Qed.

Lemma Layout_not_symbols gtx : emits_only not_symbols (Layout gtx).
Proof.
  unfold Layout, not_symbols. apply emits_only_bind; [steps|]. intros ui.
  apply emits_only_bind.
  { unfold selectIndex, len_Matches, resetScroll. steps. }
  intros _. apply emits_only_bind; [steps|]. intros ui1.
  apply emits_only_bind.
  { induction (clicks (OpenInNew ui1)) as [|c cs IH]; simpl; [steps|].
    apply emits_only_bind; [steps|]. intros _.
    apply emits_only_bind; [|done].
    unfold openInNew, Windows_Open. steps. }
  intros _. apply emits_only_bind; [|intros; apply emits_only_ret].
  apply Flex_Layout_emits.
  apply List.Forall_cons; [|apply List.Forall_cons; [|apply List.Forall_cons; [|apply List.Forall_cons; [|apply List.Forall_nil]]]];
    unfold child_emits_only; intros g.
  - unfold Layout_symbols, return_before. steps.
  - unfold Layout_matches, layoutMatches, selectIndex, len_Matches, resetScroll. steps.
  - unfold Layout_splitter. steps.
  - unfold Layout_code. apply emits_only_bind; [steps|]. intros ui2.
    destruct (decide _); [steps|]. apply Stack_Layout_emits.
    apply List.Forall_cons; [|apply List.Forall_cons; [|apply List.Forall_nil]];
      unfold stack_child_emits_only; intros g'.
    + unfold layoutCode. steps.
    + unfold Layout_button. steps.
Qed.

Lemma Run_not_symbols events : emits_only not_symbols (Run events).
Proof.
  induction events as [|[gtx|err|] events IH]; simpl.
  - apply emits_only_ret.
  - apply emits_only_bind; [apply Layout_not_symbols | done].
  - apply emits_only_ret.
  - done.
Qed.

(** C10.  The first child of the Flex of [UI.Layout] returns the empty
    [layout.Dimensions], whatever the context and the UI state, changing
    nothing and drawing nothing.  The statements after its [return], the
    call of [ui.Symbols.Layout] among them, are not run: neither a frame
    of [UI.Layout] nor any run of [UI.Run] calls [ui.Symbols.Layout]. *)
Theorem Layout_symbols_pane_is_empty (gtx : Context) (ui : UI) :
  Layout_symbols gtx ui = (Ret Dimensions_zero, ui, []) ∧
  trace_of (Layout_symbols_rest gtx ui) = [EvWidget CallSymbolsLayout] ∧
  (EvWidget CallSymbolsLayout ∉ trace_of (Layout gtx ui)) ∧
  (∀ events, EvWidget CallSymbolsLayout ∉ trace_of (Run events ui)).
Proof.
  split; [done|]. split; [done|]. split.
  - intros Hin. pose proof (Layout_not_symbols gtx ui) as H.
    rewrite Forall_forall in H. by apply (H _ Hin).
  - intros events Hin. pose proof (Run_not_symbols events ui) as H.
    rewrite Forall_forall in H. by apply (H _ Hin).
Qed.

(** *** The scroll offsets *)



End Facts.

Section MatcherFacts.
Context {ET : ExtTypes} {EO : ExtOps} {CP : Components}.

Lemma accept_symbols_length E pattern context maxMatches syms accepted :
  Z.of_nat (length (accept_symbols E pattern context maxMatches syms accepted)) =
  if decide (maxMatches ≤ Z.of_nat (length accepted)) then Z.of_nat (length accepted)
  else Z.min maxMatches
         (Z.of_nat (length accepted) + Z.of_nat (length (matching pattern syms))).
Proof.
  revert accepted. induction syms as [|sym syms IH]; intros accepted; simpl.
  - case_decide; lia.
  - unfold matching in *. destruct (decide (maxMatches ≤ _)) as [|Hlt]; [done|].
    destruct (MatchString pattern (Sym_Name sym)) eqn:Hm.
    + rewrite IH, filter_cons_True by done.
      rewrite length_app. simpl. case_decide; lia.
    + rewrite IH, filter_cons_False by (by rewrite Hm).
      rewrite decide_False by done. done.
Qed.

(** C1.  For every executable, pattern, context and cap [maxMatches], the
    number of Matches in the Output of the Matcher is the smaller of
    [maxMatches] and the number of symbols whose name the pattern matches
    when [maxMatches > 0], and 0 when [maxMatches <= 0]. *)
Theorem BuildOutput_match_count (E : Executable) (pattern : Regexp) (context maxMatches : Z) :
  Z.of_nat (length (Matches (BuildOutput E pattern context maxMatches))) =
  if decide (0 < maxMatches)
  then Z.min maxMatches (Z.of_nat (length (matching pattern (Syms E))))
  else 0.
Proof.
  unfold BuildOutput. simpl. rewrite accept_symbols_length. simpl.
  repeat case_decide; lia.
Qed.

End MatcherFacts.

Section MainWithMatcher.
Context {ET : ExtTypes} {EO : ExtOps} {WG : Widgets} {CP : Components}.

(** When [main], run with the Matcher of section 4.5, enters [app.Main],
    the Output its UI holds was built from the executable and the filter
    of the command line, with the values of -context and -max-matches. *)
Lemma main_Output (cl : CommandLine) (ui : UI) :
  result_of (main (MT := Matcher_model) cl ()) = Ret ui →
  ∃ E re,
    Load (flag_Arg (cl_args cl) 0) = inl E ∧
    regexp_Compile (flag_String (cl_filter cl) "") = inl re ∧
    UI_Output ui =
      Some (BuildOutput E re (flag_Int (cl_context cl) 3)
              (flag_Int (cl_max_matches cl) 10)).
Proof.
  unfold main. cbv zeta. run.
  destruct (decide _) as [|_]; [done|]. cbn.
  destruct (regexp_Compile _) as [re|err]; [|done]. cbn.
  unfold Parse_model, ParseExe_model. cbn.
  destruct (Load _) as [E|err]; [|done]. cbn.
  match goal with |- context [fontCollection ?p ?s] =>
    destruct (fontCollection p s) as [[[c|c|v] s1] t1] end; cbn; [|done..].
  intros [= <-]. by exists E, re.
Qed.

End MainWithMatcher.

(** ** The statements on the concrete environment *)

Section OnDemo.
Import Demo.
#[local] Existing Instance Demo.types.
#[local] Existing Instance Demo.ops.
#[local] Existing Instance Demo.widgets.
#[local] Existing Instance Demo.components.
#[local] Existing Instance Demo.matcher.

Example main_cl_main :
  main cl_main () =
    (Ret ui_start, (),
     [EvCompile "main.";
      EvParse {| Exe := "a.out"; Filter := re_main; Context_ := 3; MaxSymbols := 10 |};
      EvParseExe "a.out"; EvGo "lensm" (Pt 1400 900) RunUI; EvGoWait; EvAppMain]).
Proof. vm_compute. reflexivity. Qed.

Example out_main_names : Name <$> Matches out_main = ["main.foo"; "main.bar"].
Proof. vm_compute. reflexivity. Qed.

Example out_capped_names : Name <$> Matches (BuildOutput a_out re_main 3 1) = ["main.foo"].
Proof. vm_compute. reflexivity. Qed.

Example out_no_cap : Matches (BuildOutput a_out re_main 3 0) = [].
Proof. vm_compute. reflexivity. Qed.

Example ui_frame1_scroll :
  asm_scroll (MatchUI ui_frame1) = 100001 ∧ src_scroll (MatchUI ui_frame1) = 100000.
Proof. vm_compute. done. Qed.


(** C5 on [lensm -filter ( a.out]. *)
Lemma main_invalid_pattern_witness :
  main cl_bad_pattern () =
    (Panic "error parsing regexp: missing closing )", (), [EvCompile "("]).
Proof.
  apply (main_invalid_pattern cl_bad_pattern "error parsing regexp: missing closing )");
    [reflexivity | discriminate | discriminate].
Defined.

(** C6 on [lensm -filter main. b.out], where b.out is not an executable. *)
Lemma main_format_error_witness :
  result_of (main cl_bad_exe ()) = Panic "open b.out: no such file or directory" ∧
  Forall (λ ev, is_ui ev = false) (trace_of (main cl_bad_exe ())).
Proof.
  apply (main_format_error cl_bad_exe re_main);
    [discriminate | discriminate | reflexivity | left; reflexivity].
Defined.


(** C8 on [ui_start]: target 5 is out of range, target 1 is a new match,
    and, once match 1 is selected, target 1 is the selected match. *)
Lemma selectIndex_cases_witness :
  selectIndex 5 ui_start = (Ret (), cleared ui_start, []) ∧
  selectIndex 1 ui_start = (Ret (), selected 1 ui_start, []) ∧
  selectIndex 1 (selected 1 ui_start) =
    (Ret (), set_Matches (set_Selected_ 1 (UI_Matches (selected 1 ui_start)))
               (selected 1 ui_start), []).
Proof.
  split; [|split].
  - apply (proj1 (selectIndex_cases ui_start out_main 5 eq_refl)). right. by vm_compute.
  - apply (proj2 (proj2 (selectIndex_cases ui_start out_main 1 eq_refl))).
    + by vm_compute.
    + discriminate.
  - apply (proj1 (proj2 (selectIndex_cases (selected 1 ui_start) out_main 1 eq_refl))).
    + by vm_compute.
    + reflexivity.
Defined.

(** C9 on no font, on a file that is missing, and on
    [lensm -filter main. -font notes.txt a.out] *)
Lemma fontCollection_cases_witness :
  fontCollection "" () = (Ret gofont_Collection, (), []) ∧
  fontCollection "missing.ttf" () =
    (Panic "failed to parse font: open missing.ttf: no such file or directory", (),
     [EvReadFile "missing.ttf"]) ∧
  result_of (main cl_bad_font ()) = Panic "failed to parse font: sfnt: invalid font".
Proof.
  split; [|split].
  - apply (proj1 (fontCollection_cases "") eq_refl).
  - apply (proj2 (fontCollection_cases "missing.ttf")); [discriminate | reflexivity].
  - apply (proj2 (fontCollection_cases "notes.txt"))
      with (cl := cl_bad_font) (re := re_main) (out := Some out_main) (exe := Some a_out);
      first [discriminate | reflexivity].
Defined.


End OnDemo.

(** ** Further properties of main.go *)

Section Inversion.
Context {ET : ExtTypes}.

Lemma bind_Ret_inv {St T U} (m : M St T) (k : T → M St U) s b s' t :
  (m ≫= k) s = (Ret b, s', t) →
  ∃ a s1 t1 t2, m s = (Ret a, s1, t1) ∧ k a s1 = (Ret b, s', t2) ∧ t = t1 ++ t2.
Proof.
  rewrite bind_run. destruct (m s) as [[[a|c|v] s1] t1]; [|done..].
  destruct (k a s1) as [[r s2] t2] eqn:Hk. intros [= -> -> <-].
  by exists a, s1, t1, t2.
Qed.

Lemma bind_Ret {St T U} (m : M St T) (k : T → M St U) s a s1 t1 :
  m s = (Ret a, s1, t1) →
  (m ≫= k) s = let '(r, s2, t2) := k a s1 in (r, s2, t1 ++ t2).
Proof. intros H. by rewrite bind_run, H. Qed.

Lemma bind_Panic {St T U} (m : M St T) (k : T → M St U) s v s1 t1 :
  m s = (Panic v, s1, t1) → (m ≫= k) s = (Panic v, s1, t1).
Proof. intros H. by rewrite bind_run, H. Qed.

Lemma keeps_run {St T V} (f : St → V) (m : M St T) s r s' t :
  keeps f m → m s = (r, s', t) → f s' = f s.
Proof. intros Hk Hm. specialize (Hk s). unfold state_of in Hk. by rewrite Hm in Hk. Qed.

Lemma emits_only_run {St T} P (m : M St T) s r s' t :
  emits_only P m → m s = (r, s', t) → Forall P t.
Proof. intros He Hm. specialize (He s). unfold trace_of in He. by rewrite Hm in He. Qed.

Lemma triple_bind {St T U} (P : St → Prop) (m : M St T) (k : T → M St U) Q1 Q2 :
  triple P m Q1 →
  (∀ a t1, triple (λ s, Q1 a s t1) (k a) (λ b s' t2, Q2 b s' (t1 ++ t2))) →
  triple P (m ≫= k) Q2.
Proof.
  intros Hm Hk s b s' t HP Hrun.
  apply bind_Ret_inv in Hrun as (a & s1 & t1 & t2 & H1 & H2 & ->).
  eapply Hk; [|done]. by eapply Hm.
Qed.

Lemma triple_weaken {St T} (P P' : St → Prop) (m : M St T) (Q Q' : T → St → list Event → Prop) :
  triple P m Q → (∀ s, P' s → P s) → (∀ a s t, Q a s t → Q' a s t) → triple P' m Q'.
Proof. intros H HP HQ s a s' t Hs Hrun. apply HQ. eapply H; eauto. Qed.

Lemma triple_keeps {St T V} (f : St → V) (R : V → Prop) (m : M St T) :
  keeps f m → triple (λ s, R (f s)) m (λ _ s _, R (f s)).
Proof.
  intros Hk s a s' t HR Hrun. by rewrite (keeps_run f m _ _ _ _ Hk Hrun).
Qed.

End Inversion.

(** Splits a hypothesis that a sequence of computations has returned into
    one hypothesis for each computation. *)
Ltac inv_bind H :=
  let a := fresh "a" in let s := fresh "s" in
  let t1 := fresh "t" in let t2 := fresh "t" in
  let H1 := fresh H in
  apply bind_Ret_inv in H as (a & s & t1 & t2 & H1 & H & ->).

(** Does so as far as it goes, and reads off what the primitive
    computations among them have done. *)
Ltac inv_run :=
  repeat match goal with
  | H : (_ ≫= _) _ = (Ret _, _, _) |- _ => inv_bind H
  | H : emit _ _ = (_, _, _) |- _ => cbv [emit] in H; simplify_eq
  | H : get _ = (_, _, _) |- _ => cbv [get] in H; simplify_eq
  | H : modify _ _ = (_, _, _) |- _ => cbv [modify] in H; simplify_eq
  | H : mret _ _ = (_, _, _) |- _ => cbv [mret M_ret ret] in H; simplify_eq
  | H : lift_Res _ _ = (_, _, _) |- _ => cbv [lift_Res] in H; simplify_eq
  end.

(** Breaks a goal [keeps f m] or [emits_only P m] down along [m]. *)
Ltac frame_step :=
  first
    [ apply keeps_bind | apply keeps_ret | apply keeps_get | apply keeps_emit
    | apply keeps_panic | apply keeps_lift_Res
    | apply keeps_modify; intros []; reflexivity
    | apply keeps_zoom; intros ? []; reflexivity
    | apply emits_only_bind | apply emits_only_ret | apply emits_only_get
    | apply emits_only_panic | apply emits_only_os_Exit | apply emits_only_modify
    | apply emits_only_lift_Res | apply emits_only_zoom | apply emits_only_run_on
    | apply emits_only_emit; first [reflexivity | discriminate | by intros ? [= <-]]
    | match goal with
      | |- keeps _ (if ?c then _ else _) => destruct c
      | |- keeps _ (match ?x with _ => _ end) => destruct x
      | |- keeps _ (let _ := _ in _) => cbv zeta
      | |- emits_only _ (if ?c then _ else _) => destruct c
      | |- emits_only _ (match ?x with _ => _ end) => destruct x
      | |- emits_only _ (let _ := _ in _) => cbv zeta
      | |- ∀ _, _ => intro
      end ].
Ltac frame := repeat frame_step.

Section MoreFacts.
Context {ET : ExtTypes} {EO : ExtOps} {WG : Widgets} {MT : Matcher}.

(** *** selectIndex *)

(** X1.  Selecting the same index twice is selecting it once: run again
    on the state it has left, [selectIndex] with the same target ends as
    it did the first time (it returns, or panics on a nil Output), leaves
    that state as it is and emits nothing. *)
Theorem selectIndex_idempotent (target : Z) (ui : UI) :
  selectIndex target (state_of (selectIndex target ui)) =
    (result_of (selectIndex target ui), state_of (selectIndex target ui), []).
Proof.
  unfold selectIndex, len_Matches, resetScroll. run.
  destruct (decide (target < 0)) as [Hlt|Hge]; cbn.
  { destruct (decide (target < 0)); [done|lia]. }
  destruct (UI_Output ui) as [out|] eqn:Hout; cbn.
  2: { destruct (decide (target < 0)); [lia|]. by rewrite Hout. }
  destruct (bool_decide (target >= _)) eqn:Hb; cbn.
  - destruct (decide (target < 0)); [lia|]. rewrite Hout. cbn. by rewrite Hb.
  - destruct (decide (Selected ui = _)) as [Hs|Hs]; cbn;
      (destruct (decide (target < 0)); [lia|]); rewrite Hout; cbn; rewrite Hb; cbn.
    + by rewrite decide_True by done.
    + by rewrite decide_True by done.
Qed.

(** What a [selectIndex] that returns leaves behind. *)
Lemma selectIndex_post (target : Z) (ui ui' : UI) a t :
  selectIndex target ui = (Ret a, ui', t) →
  selection_consistent ui' ∧
  (Selected ui' = None ∨ (0 ≤ target ∧ Selected ui' = Some (Z.to_nat target))) ∧
  UI_Output ui' = UI_Output ui.
Proof.
  unfold selectIndex, len_Matches, resetScroll, selection_consistent, deref_Match. run.
  destruct (decide (target < 0)); [by intros [= <- <- <-]; repeat split; left|].
  destruct (UI_Output ui) as [out|] eqn:Hout; [|done].
  destruct (bool_decide (target >= _)) eqn:Hb;
    [by intros [= <- <- <-]; repeat split; try left|].
  apply bool_decide_eq_false in Hb. cbn.
  assert (Hlt : (Z.to_nat target < length (Matches out))%nat) by lia.
  destruct (lookup_lt_is_Some_2 _ _ Hlt) as [m Hm].
  destruct (decide _) as [Heq|Hne]; cbn; intros [= <- <- <-]; simpl;
    (split; [right|split; [right; split; [lia|done]|done]]);
    exists (Z.to_nat target), m; rewrite Hout; simpl; (split; [done|split; [lia|done]]).
Qed.

(** X2.  When [selectIndex] returns, the index the list shows and the
    selected match agree: either nothing is selected and
    [Matches.Selected] is -1, or [Selected] points to the Match of
    [ui.Output] at index [Matches.Selected]; and [Selected] is nil or
    points to the Match at the target index. *)
Theorem selectIndex_consistent (target : Z) (ui : UI) :
  result_of (selectIndex target ui) = Ret () →
  selection_consistent (state_of (selectIndex target ui)) ∧
  (Selected (state_of (selectIndex target ui)) = None ∨
   (0 ≤ target ∧ Selected (state_of (selectIndex target ui)) = Some (Z.to_nat target))).
Proof.
  unfold result_of, state_of.
  destruct (selectIndex target ui) as [[r ui'] t] eqn:Hrun. simpl. intros ->.
  by destruct (selectIndex_post _ _ _ _ _ Hrun) as (? & ? & _).
Qed.

(** *** openInNew *)

Lemma Windows_Open_run title size run (w : Windows) :
  Windows_Open title size run w =
    (Ret (), {| active := active w + 1 |}, [EvGo title size run]).
Proof. reflexivity. Qed.

(** What [openInNew] does, by whether [ui.Selected] points to a Match. *)
Lemma openInNew_run (gtx : Context) (ui : UI) :
  match Selected ui ≫= deref_Match ui with
  | Some m =>
      openInNew gtx ui =
        (Ret (), set_Windows {| active := active (UI_Windows ui) + 1 |} ui,
         [EvGo (Name m) (window_size gtx) (RunWidget (window_style ui))])
  | None => openInNew gtx ui = (Panic nil_deref, ui, [])
  end.
Proof.
  unfold openInNew, Windows_Open, window_size, window_style. run.
  destruct (option_bind _ _ _ _); reflexivity.
Qed.

(** X3.  [openInNew] returns exactly when [ui.Selected] points to a Match.
    It then starts one window goroutine, named after that Match, sized in
    dp, and running a MatchUIStyle that holds a copy of [ui.MatchUI]; the
    only change to the UI is the window count, one higher.  With a nil
    [ui.Selected] it panics on the nil dereference, opens no window and
    leaves the UI as it is. *)
Theorem openInNew_cases (gtx : Context) (ui : UI) :
  match Selected ui ≫= deref_Match ui with
  | Some m =>
      openInNew gtx ui =
        (Ret (), set_Windows {| active := active (UI_Windows ui) + 1 |} ui,
         [EvGo (Name m) (window_size gtx) (RunWidget (window_style ui))])
  | None => openInNew gtx ui = (Panic nil_deref, ui, [])
  end.
Proof. exact (openInNew_run gtx ui). Qed.

(** *** The click loop of Layout *)

Lemma set_Windows_add (ui : UI) (a b : Z) :
  set_Windows {| active := active (UI_Windows (set_Windows {| active := a |} ui)) + b |}
    (set_Windows {| active := a |} ui) =
  set_Windows {| active := a + b |} ui.
Proof. by destruct ui. Qed.

Lemma Layout_clicks_run gtx (cs : list Click) (ui : UI) (m : Match) :
  cs ≠ [] →
  Selected ui ≫= deref_Match ui = Some m →
  Layout_clicks gtx cs ui =
    (Ret (),
     set_Windows {| active := active (UI_Windows ui) + Z.of_nat (length cs) |}
       (set_OpenInNew {| clicks := [] |} ui),
     replicate (length cs) (EvGo (Name m) (window_size gtx) (RunWidget (window_style ui)))).
Proof.
  revert ui. induction cs as [|c cs IH]; intros ui Hne Hm; [done|].
  simpl Layout_clicks.
  pose (ui1 := set_OpenInNew {| clicks := cs |} ui).
  assert (Hm1 : Selected ui1 ≫= deref_Match ui1 = Some m) by (by destruct ui).
  pose proof (openInNew_run gtx ui1) as Ho. rewrite Hm1 in Ho.
  rewrite (bind_Ret _ _ ui () ui1 []) by done.
  rewrite (bind_Ret _ _ ui1 () _ _ Ho).
  destruct cs as [|c' cs].
  - simpl. destruct ui as [[w] ? ? ? ? ? [?] ? ?]; simpl in *. reflexivity.
  - rewrite IH; [|done|by destruct ui].
    destruct ui as [[w] ? ? ? ? ? [?] ? ?]. subst ui1. unfold window_style. simpl.
    unfold set_Windows, set_OpenInNew; simpl. do 4 f_equal. lia.
Qed.

(** X4.  With a Match selected, the loop over [ui.OpenInNew.Clicked()] in
    [UI.Layout] returns after it has opened one window per recorded
    click, all of them for the selected Match; no click is left recorded
    and the window count has grown by the number of clicks. *)
Theorem Layout_clicks_opens_each (gtx : Context) (ui : UI) (m : Match) :
  Selected ui ≫= deref_Match ui = Some m →
  let n := length (clicks (OpenInNew ui)) in
  result_of (Layout_clicks gtx (clicks (OpenInNew ui)) ui) = Ret () ∧
  trace_of (Layout_clicks gtx (clicks (OpenInNew ui)) ui) =
    replicate n (EvGo (Name m) (window_size gtx) (RunWidget (window_style ui))) ∧
  clicks (OpenInNew (state_of (Layout_clicks gtx (clicks (OpenInNew ui)) ui))) = [] ∧
  active (UI_Windows (state_of (Layout_clicks gtx (clicks (OpenInNew ui)) ui))) =
    active (UI_Windows ui) + Z.of_nat n.
Proof.
  intros Hm n. subst n. destruct (clicks (OpenInNew ui)) as [|c cs] eqn:Hcs.
  - split; [done|]. split; [done|]. split; [exact Hcs|].
    change (active (UI_Windows ui) = active (UI_Windows ui) + 0). lia.
  - rewrite (Layout_clicks_run gtx _ ui m) by done. done.
Qed.

(** X5.  With nothing selected, a recorded click makes the loop over
    [ui.OpenInNew.Clicked()] panic on the nil dereference in [openInNew]:
    the first click is consumed, the others stay recorded, and no window
    is opened. *)
Theorem Layout_clicks_nil_Selected (gtx : Context) (ui : UI) (c : Click) (cs : list Click) :
  Selected ui ≫= deref_Match ui = None →
  Layout_clicks gtx (c :: cs) ui =
    (Panic nil_deref, set_OpenInNew {| clicks := cs |} ui, []).
Proof.
  intros Hm. simpl Layout_clicks.
  pose (ui1 := set_OpenInNew {| clicks := cs |} ui).
  assert (Hm1 : Selected ui1 ≫= deref_Match ui1 = None) by (by destruct ui).
  pose proof (openInNew_run gtx ui1) as Ho. rewrite Hm1 in Ho.
  rewrite (bind_Ret _ _ ui () ui1 []) by done.
  by rewrite (bind_Panic _ _ ui1 _ _ _ Ho).
Qed.

(** *** Layout *)

Lemma selection_consistent_view (ui ui' : UI) :
  selection_view ui' = selection_view ui →
  selection_consistent ui → selection_consistent ui'.
Proof.
  unfold selection_view, selection_consistent, deref_Match.
  intros [= Hs Hl Ho]. rewrite Hs, Hl, Ho. done.
Qed.

Lemma Layout_clicks_keeps {V} (f : UI → V) gtx cs :
  (∀ c ui, f (set_OpenInNew c ui) = f ui) →
  (∀ w ui, f (set_Windows w ui) = f ui) →
  keeps f (Layout_clicks gtx cs).
Proof.
  intros Hc Hw. induction cs as [|c cs IH]; simpl; [apply keeps_ret|].
  apply keeps_bind; [by apply keeps_modify|]. intros _.
  apply keeps_bind; [|done].
  unfold openInNew. apply keeps_bind; [apply keeps_get|]. intros ui.
  cbv zeta. apply keeps_bind; [frame|]. intros name.
  apply keeps_zoom. intros. apply Hw.
Qed.

Lemma Layout_splitter_keeps {V} (f : UI → V) gtx : keeps f (Layout_splitter gtx).
Proof. unfold Layout_splitter. frame. Qed.

Lemma Layout_code_keeps_selection gtx : keeps selection_view (Layout_code gtx).
Proof.
  unfold Layout_code. apply keeps_bind; [frame|]. intros ui.
  destruct (decide _); [frame|].
  unfold Stack_Layout, layoutCode, Layout_button. simpl. frame.
Qed.

Lemma Layout_code_keeps_exe gtx : keeps exe_view (Layout_code gtx).
Proof.
  unfold Layout_code. apply keeps_bind; [frame|]. intros ui.
  destruct (decide _); [frame|].
  unfold Stack_Layout, layoutCode, Layout_button. simpl. frame.
Qed.

Lemma selectIndex_keeps_exe target : keeps exe_view (selectIndex target).
Proof. unfold selectIndex, len_Matches, resetScroll. frame. Qed.

Lemma Layout_matches_keeps_exe gtx : keeps exe_view (Layout_matches gtx).
Proof.
  unfold Layout_matches, layoutMatches, selectIndex, len_Matches, resetScroll. frame.
Qed.

Lemma Layout_keeps_exe gtx : keeps exe_view (Layout gtx).
Proof.
  unfold Layout. apply keeps_bind; [frame|]. intros ui.
  apply keeps_bind.
  { destruct (decide _); [|frame]. apply keeps_bind; [unfold len_Matches; frame|].
    intros n. destruct (decide _); [apply selectIndex_keeps_exe|frame]. }
  intros _. apply keeps_bind; [frame|]. intros ui1.
  apply keeps_bind; [by apply Layout_clicks_keeps; intros ? []|]. intros _.
  apply keeps_bind; [|frame].
  unfold Flex_Layout. simpl.
  apply keeps_bind.
  - apply keeps_bind; [unfold Layout_symbols, return_before; frame|]. intros d0.
    apply keeps_bind; [apply Layout_matches_keeps_exe|]. intros d1.
    apply keeps_bind; [apply Layout_splitter_keeps|]. intros d2. frame.
  - intros laid. apply keeps_bind; [|frame].
    apply keeps_bind; [apply Layout_code_keeps_exe|]. frame.
Qed.

(** X6.  No event handled by [UI.Run] changes [ui.Exe] or [ui.Symbols]:
    after [SetExe], they stay what it has made them, whether the loop
    goes on, returns or panics. *)
Theorem Run_keeps_Exe_and_Symbols (events : list WinEvent) (ui : UI) :
  UI_Exe (state_of (Run events ui)) = UI_Exe ui ∧
  Symbols (state_of (Run events ui)) = Symbols ui.
Proof.
  assert (H : keeps exe_view (Run events)).
  { induction events as [|[gtx|err|] events IH]; simpl.
    - apply keeps_ret.
    - apply keeps_bind; [apply Layout_keeps_exe | done].
    - apply keeps_ret.
    - done. }
  specialize (H ui). unfold exe_view in H. by injection H.
Qed.

(** X7.  A frame on a UI that has no Output and no selection panics on
    the nil dereference of [ui.Output] in the first statement of
    [UI.Layout], before anything is drawn or changed. *)
Theorem Layout_nil_Output (gtx : Context) (ui : UI) :
  UI_Output ui = None → Selected ui = None →
  Layout gtx ui = (Panic nil_deref, ui, []).
Proof.
  intros Hout Hsel. unfold Layout, len_Matches. run.
  rewrite Hsel. rewrite decide_True by done. by rewrite Hout.
Qed.

Lemma len_Matches_run (ui ui' : UI) n t :
  len_Matches ui = (Ret n, ui', t) →
  ui' = ui ∧ t = [] ∧ ∃ out, UI_Output ui = Some out ∧ n = Z.of_nat (length (Matches out)).
Proof.
  unfold len_Matches. run. destruct (UI_Output ui) as [out|]; [|done].
  intros [= <- <- <-]. eauto.
Qed.

Lemma Layout_matches_post gtx (ui ui' : UI) d t :
  Layout_matches gtx ui = (Ret d, ui', t) →
  selection_consistent ui' ∧ UI_Output ui' = UI_Output ui.
Proof.
  unfold Layout_matches, layoutMatches. intros H. inv_run.
  match goal with H : len_Matches _ = _ |- _ =>
    apply len_Matches_run in H as (-> & -> & _) end.
  match goal with H : selectIndex _ _ = _ |- _ =>
    apply selectIndex_post in H as (Hc & _ & Ho) end.
  split; [done|]. rewrite Ho. reflexivity.
Qed.

(** The four children of the Flex of [Layout], one after the other. *)
Lemma Flex_Layout_inv gtx (ui ui' : UI) d t :
  Flex_Layout gtx
    [Rigid Layout_symbols; Rigid Layout_matches; Rigid Layout_splitter;
     Flexed (f32_of_int 1) Layout_code] ui = (Ret d, ui', t) →
  ∃ g1 g2 g3 d1 d2 d3 ui1 ui2 t1 t2 t3,
    Layout_matches g1 ui = (Ret d1, ui1, t1) ∧
    Layout_splitter g2 ui1 = (Ret d2, ui2, t2) ∧
    Layout_code g3 ui2 = (Ret d3, ui', t3) ∧
    t = t1 ++ t2 ++ t3.
Proof.
  unfold Flex_Layout. simpl. unfold Layout_symbols, return_before. intros H. inv_run.
  do 11 eexists. split; [done|]. split; [done|]. split; [done|].
  simpl. by rewrite !app_nil_r, <-!app_assoc.
Qed.

(** X8.  After every frame that [UI.Layout] completes, the index the list
    shows and the selected match agree (as in X2), whatever the state
    before the frame and whatever the list widget has done to its
    index. *)
Theorem Layout_consistent (gtx : Context) (ui : UI) :
  result_of (Layout gtx ui) = Ret () →
  selection_consistent (state_of (Layout gtx ui)).
Proof.
  unfold result_of, state_of.
  destruct (Layout gtx ui) as [[r ui'] t] eqn:H. simpl. intros ->.
  unfold Layout in H. inv_run.
  match goal with H : Flex_Layout _ _ _ = _ |- _ =>
    apply Flex_Layout_inv in H
      as (g1 & g2 & g3 & d1 & d2 & d3 & ui1 & ui2 & tm & ts & tc & Hm & Hs & Hc & _) end.
  apply Layout_matches_post in Hm as [Hm _].
  apply (keeps_run selection_view _ _ _ _ _ (Layout_splitter_keeps _ _)) in Hs.
  apply (keeps_run selection_view _ _ _ _ _ (Layout_code_keeps_selection _)) in Hc.
  apply (selection_consistent_view ui1); [congruence|done].
Qed.

Lemma Layout_clicks_emits P gtx cs :
  (∀ title size run, P (EvGo title size run)) →
  emits_only P (Layout_clicks gtx cs).
Proof.
  intros HP. induction cs as [|c cs IH]; simpl; [apply emits_only_ret|].
  apply emits_only_bind; [apply emits_only_modify|]. intros _.
  apply emits_only_bind; [|done].
  unfold openInNew. apply emits_only_bind; [apply emits_only_get|]. intros ui.
  cbv zeta. apply emits_only_bind; [frame|]. intros name.
  apply emits_only_zoom. unfold Windows_Open.
  apply emits_only_bind; [apply emits_only_modify|]. intros _.
  by apply emits_only_emit.
Qed.

Lemma Layout_select_first_frame (ui : UI) :
  keeps UI_Output
    (if decide (Selected ui = None)
     then n ← len_Matches; if decide (n > 0) then selectIndex 0 else mret ()
     else mret ()) ∧
  emits_only not_code
    (if decide (Selected ui = None)
     then n ← len_Matches; if decide (n > 0) then selectIndex 0 else mret ()
     else mret ()).
Proof.
  unfold not_code, selectIndex, len_Matches, resetScroll. split; frame.
Qed.

Lemma Layout_matches_not_code gtx : emits_only not_code (Layout_matches gtx).
Proof.
  unfold not_code, Layout_matches, layoutMatches, selectIndex, len_Matches, resetScroll.
  frame.
Qed.

Lemma Layout_splitter_not_code gtx : emits_only not_code (Layout_splitter gtx).
Proof. unfold not_code, Layout_splitter. frame. Qed.

Lemma Layout_code_no_selection gtx (ui : UI) :
  Selected ui = None →
  ∃ d, Layout_code gtx ui = (Ret d, ui, [EvWidget (CallH4 "no matches")]).
Proof.
  intros Hsel. unfold Layout_code. run. rewrite Hsel.
  rewrite decide_True by done. by eexists.
Qed.

Lemma no_matches_no_selection (ui : UI) (out : Output) :
  UI_Output ui = Some out → Matches out = [] →
  selection_consistent ui → Selected ui = None.
Proof.
  intros Hout Hempty [[? _]|(i & m & _ & _ & Hm)]; [done|].
  unfold deref_Match in Hm. rewrite Hout in Hm. simpl in Hm. by rewrite Hempty in Hm.
Qed.

(** X9.  When the Output holds no Match, a frame that [UI.Layout]
    completes ends with nothing selected, draws the "no matches" heading
    and does not lay out any code. *)
Theorem Layout_no_matches (gtx : Context) (ui : UI) (out : Output) :
  UI_Output ui = Some out → Matches out = [] →
  result_of (Layout gtx ui) = Ret () →
  Selected (state_of (Layout gtx ui)) = None ∧
  EvWidget (CallH4 "no matches") ∈ trace_of (Layout gtx ui) ∧
  (EvWidget CallMatchUIStyleLayout ∉ trace_of (Layout gtx ui)).
Proof.
  intros Hout Hempty. unfold result_of, state_of, trace_of.
  destruct (Layout gtx ui) as [[r ui'] t] eqn:H. simpl. intros ->.
  unfold Layout in H. inv_run.
  match goal with H : Flex_Layout _ _ _ = _ |- _ =>
    apply Flex_Layout_inv in H
      as (g1 & g2 & g3 & d1 & d2 & d3 & ui1 & ui2 & tm & ts & tc & Hm & Hs & Hc & ->) end.
  match goal with H : (if _ then _ else _) _ = _ |- _ =>
    pose proof (keeps_run _ _ _ _ _ _ (proj1 (Layout_select_first_frame _)) H) as Ho1;
    pose proof (emits_only_run _ _ _ _ _ _ (proj2 (Layout_select_first_frame _)) H) as He1
  end.
  assert (Hck : ∀ cs, keeps UI_Output (Layout_clicks gtx cs)).
  { intros cs. by apply Layout_clicks_keeps. }
  assert (Hce : ∀ cs, emits_only not_code (Layout_clicks gtx cs)).
  { intros cs. by apply Layout_clicks_emits. }
  match goal with H : Layout_clicks _ _ _ = _ |- _ =>
    pose proof (keeps_run _ _ _ _ _ _ (Hck _) H) as Ho2;
    pose proof (emits_only_run _ _ _ _ _ _ (Hce _) H) as He2
  end.
  pose proof (emits_only_run _ _ _ _ _ _ (Layout_matches_not_code _) Hm) as He3.
  pose proof (emits_only_run _ _ _ _ _ _ (Layout_splitter_not_code _) Hs) as He4.
  apply Layout_matches_post in Hm as [Hcons Ho3].
  assert (Hsel1 : Selected ui1 = None).
  { apply (no_matches_no_selection ui1 out); [congruence|done..]. }
  pose proof (keeps_run selection_view _ _ _ _ _ (Layout_splitter_keeps _ _) Hs) as Hv.
  assert (Hsel2 : Selected ui2 = None) by (injection Hv as -> _ _; done).
  destruct (Layout_code_no_selection g3 ui2 Hsel2) as [d Hcode].
  rewrite Hcode in Hc. injection Hc as _ <- <-.
  split; [done|]. split.
  - rewrite !elem_of_app, !elem_of_cons. auto 10.
  - rewrite Forall_forall in He1, He2, He3, He4. unfold not_code in *.
    rewrite !elem_of_app, !elem_of_cons, !elem_of_nil.
    intros Hin.
    repeat match goal with H : _ ∨ _ |- _ => destruct H as [H|H] end;
      try discriminate; try done;
      first [by apply (He1 _ Hin) | by apply (He2 _ Hin)
            | by apply (He3 _ Hin) | by apply (He4 _ Hin)].
Qed.

(** *** Run and WidgetWindow *)

Lemma bind_assoc_ret {St T U V} (m : M St T) (d : U) (k : M St V) (s : St) :
  ((m ;; mret d) ;; k) s = (m ;; k) s.
Proof.
  rewrite !bind_run. destruct (m s) as [[[a|c|v] s1] t1]; simpl; [|done..].
  rewrite app_nil_r. by destruct (k s1) as [[r s2] t2].
Qed.

(** X10.  [UI.Run] is the loop of [WidgetWindow] for the widget
    [ui.Layout]: on the same events and the same UI the two end alike,
    leave the same UI and emit the same events. *)
Theorem Run_is_WidgetWindow (events : list WinEvent) (ui : UI) :
  Run events ui = WidgetWindow Layout_widget events ui.
Proof.
  revert ui. induction events as [|[gtx|err|] events IH]; intros ui; simpl; try done.
  unfold Layout_widget. rewrite bind_assoc_ret.
  rewrite !bind_run. destruct (Layout gtx ui) as [[[a|c|v] s1] t1]; [|done..].
  by rewrite IH.
Qed.

Lemma WidgetWindow_Destroy {St} (widget : Context → M St Dimensions) pre err rest s :
  WidgetWindow widget (pre ++ DestroyEvent err :: rest) s =
  WidgetWindow widget (pre ++ [DestroyEvent err]) s.
Proof.
  revert s. induction pre as [|[gtx|err'|] pre IH]; intros s; simpl; try done.
  rewrite !bind_run. destruct (widget gtx s) as [[[a|c|v] s1] t1]; [|done..].
  by rewrite IH.
Qed.

Lemma WidgetWindow_returns {St} (widget : Context → M St Dimensions) events s err s' t :
  WidgetWindow widget events s = (Ret (Some err), s', t) →
  ∃ pre rest, events = pre ++ DestroyEvent err :: rest ∧ no_Destroy pre.
Proof.
  revert s t. induction events as [|[gtx|err'|] events IH]; intros s t; simpl.
  - done.
  - intros H. inv_bind H. destruct (IH _ _ H) as (pre & rest & -> & Hpre).
    exists (FrameEvent gtx :: pre), rest. split; [done|]. by constructor.
  - intros [= -> _ _]. exists [], events. split; [done|constructor].
  - intros H. destruct (IH _ _ H) as (pre & rest & -> & Hpre).
    exists (OtherEvent :: pre), rest. split; [done|]. by constructor.
Qed.

(** X11.  The loop of [WidgetWindow] stops at the first DestroyEvent: the
    events after it change nothing, and the loop returns an error value
    only if a DestroyEvent carrying it was delivered, with no DestroyEvent
    before it. *)
Theorem WidgetWindow_stops_at_Destroy {St} (widget : Context → M St Dimensions)
    (events : list WinEvent) (s : St) :
  (∀ pre err rest,
     events = pre ++ DestroyEvent err :: rest →
     WidgetWindow widget events s = WidgetWindow widget (pre ++ [DestroyEvent err]) s) ∧
  (∀ err, result_of (WidgetWindow widget events s) = Ret (Some err) →
     ∃ pre rest, events = pre ++ DestroyEvent err :: rest ∧ no_Destroy pre).
Proof.
  split.
  - intros pre err rest ->. apply WidgetWindow_Destroy.
  - intros err. unfold result_of.
    destruct (WidgetWindow widget events s) as [[r s'] t] eqn:H. simpl. intros ->.
    by eapply WidgetWindow_returns.
Qed.

(** X12.  [UI.Run] stops at the first DestroyEvent: the events after it
    change nothing, and [Run] returns an error value only if a
    DestroyEvent carrying it was delivered, with no DestroyEvent before
    it. *)
Theorem Run_stops_at_Destroy (events : list WinEvent) (ui : UI) :
  (∀ pre err rest,
     events = pre ++ DestroyEvent err :: rest →
     Run events ui = Run (pre ++ [DestroyEvent err]) ui) ∧
  (∀ err, result_of (Run events ui) = Ret (Some err) →
     ∃ pre rest, events = pre ++ DestroyEvent err :: rest ∧ no_Destroy pre).
Proof.
  split.
  - intros pre err rest ->. revert ui.
    induction pre as [|[gtx|err'|] pre IH]; intros ui; simpl; try done.
    rewrite !bind_run. destruct (Layout gtx ui) as [[[a|c|v] s1] t1]; [|done..].
    by rewrite IH.
  - intros err. unfold result_of.
    destruct (Run events ui) as [[r s'] t] eqn:H. simpl. intros ->.
    revert ui t H. induction events as [|[gtx|err'|] events IH]; intros ui t; simpl.
    + done.
    + intros H. inv_bind H. destruct (IH _ _ H) as (pre & rest & -> & Hpre).
      exists (FrameEvent gtx :: pre), rest. split; [done|]. by constructor.
    + intros [= -> _ _]. exists [], events. split; [done|constructor].
    + intros H. destruct (IH _ _ H) as (pre & rest & -> & Hpre).
      exists (OtherEvent :: pre), rest. split; [done|]. by constructor.
Qed.

(** *** fontCollection *)

(** X13.  [fontCollection] never exits the process and never changes the
    state.  It returns the gofont collection as it is, without reading
    any file, for the empty path; the gofont collection followed by one
    face, of variant Mono and normal weight, parsed from the file, for a
    path whose file can be read and parsed; and panics with
    "failed to parse font: " and the error otherwise. *)
Theorem fontCollection_result {St} (path : string) (s : St) :
  (∃ fonts t,
     fontCollection path s = (Ret fonts, s, t) ∧
     (fonts = gofont_Collection ∧ path = "" ∧ t = [] ∨
      ∃ b face,
        path ≠ "" ∧ ioutil_ReadFile path = inl b ∧ opentype_Parse b = inl face ∧
        t = [EvReadFile path] ∧
        fonts = gofont_Collection ++
          [{| FF_Font := {| Font_Variant := "Mono"; Font_Weight := text_Normal |};
              FF_Face := face |}])) ∨
  (∃ err,
     path ≠ "" ∧ font_error path = Some err ∧
     fontCollection path s =
       (Panic ("failed to parse font: " +:+ err), s, [EvReadFile path])).
Proof.
  unfold fontCollection, font_error. run.
  destruct (decide (path = "")) as [->|Hpath]; [left; eauto 10|].
  destruct (ioutil_ReadFile path) as [b|e1] eqn:Hread; [|right; eauto].
  destruct (opentype_Parse b) as [face|e2] eqn:Hparse; [|right; eauto].
  left. do 2 eexists. split; [done|]. right. exists b, face. done.
Qed.

(** *** main *)

(** X14.  When the executable path and the filter are non-empty, the
    filter compiles, [Parse] and [ParseExe] succeed and the font loads,
    [main] enters [app.Main]: it has called [Parse], then [ParseExe],
    then loaded the font, and opened one window, "lensm" of 1400 by 900
    dp running [ui.Run]; the UI holds the Output of [Parse], the
    executable of [ParseExe] with its symbols in the symbol list, a theme
    with the -text-size value (12 by default), and no selection. *)
Theorem main_enters_app_Main (cl : CommandLine) (re : Regexp) (out : option Output)
    (exe : Executable) (fonts : list FontFace) (tf : list Event) :
  flag_Arg (cl_args cl) 0 ≠ "" →
  flag_String (cl_filter cl) "" ≠ "" →
  regexp_Compile (flag_String (cl_filter cl) "") = inl re →
  Parse (main_Options cl re) = (out, None) →
  ParseExe (flag_Arg (cl_args cl) 0) = (Some exe, None) →
  fontCollection (flag_String (cl_font cl) "") () = (Ret fonts, (), tf) →
  main cl () =
    (Ret (set_Windows {| active := 1 |} (main_ui cl fonts out exe)), (),
     [EvCompile (flag_String (cl_filter cl) ""); EvParse (main_Options cl re);
      EvParseExe (flag_Arg (cl_args cl) 0)] ++ tf ++
     [EvGo "lensm" (Pt 1400 900) RunUI; EvGoWait; EvAppMain]).
Proof.
  intros Hexe Hfilter Hre Hparse Hparseexe Hfont.
  unfold main, main_Options, main_ui in *. cbv zeta. run.
  destruct (decide _) as [|_]; [tauto|]. cbn.
  rewrite Hre. cbn. rewrite Hparse. cbn. rewrite Hparseexe. cbn.
  rewrite Hfont. cbn. by rewrite ?app_nil_r.
Qed.


(** X16.  When [ParseExe] returns a nil executable and no error, [main]
    panics on the nil dereference in [SetExe], after the font is loaded
    and before any window is opened. *)
Theorem main_nil_Executable (cl : CommandLine) (re : Regexp) (out : option Output)
    (fonts : list FontFace) (tf : list Event) :
  flag_Arg (cl_args cl) 0 ≠ "" →
  flag_String (cl_filter cl) "" ≠ "" →
  regexp_Compile (flag_String (cl_filter cl) "") = inl re →
  Parse (main_Options cl re) = (out, None) →
  ParseExe (flag_Arg (cl_args cl) 0) = (None, None) →
  fontCollection (flag_String (cl_font cl) "") () = (Ret fonts, (), tf) →
  main cl () =
    (Panic nil_deref, (),
     [EvCompile (flag_String (cl_filter cl) ""); EvParse (main_Options cl re);
      EvParseExe (flag_Arg (cl_args cl) 0)] ++ tf).
Proof.
  intros Hexe Hfilter Hre Hparse Hparseexe Hfont.
  unfold main, main_Options, SetExe, Windows_Open in *. cbv zeta. run.
  destruct (decide _) as [|_]; [tauto|]. cbn.
  rewrite Hre. cbn. rewrite Hparse. cbn. rewrite Hparseexe. cbn.
  rewrite Hfont. cbn. by rewrite ?app_nil_r.
Qed.

End MoreFacts.

(** ** The further properties on the concrete environment *)

Section MoreOnDemo.
Import Demo.
#[local] Existing Instance Demo.types.
#[local] Existing Instance Demo.ops.
#[local] Existing Instance Demo.widgets.
#[local] Existing Instance Demo.components.
#[local] Existing Instance Demo.matcher.

(** X2 on [ui_start] and target 1. *)
Lemma selectIndex_consistent_witness :
  selection_consistent (state_of (selectIndex 1 ui_start)) ∧
  (Selected (state_of (selectIndex 1 ui_start)) = None ∨
   (0 ≤ 1 ∧ Selected (state_of (selectIndex 1 ui_start)) = Some (Z.to_nat 1))).
Proof. apply (selectIndex_consistent 1 ui_start). reflexivity. Defined.

(** X4 on [ui_clicked]: two clicks open two windows named main.bar. *)
Lemma Layout_clicks_opens_each_witness :
  trace_of (Layout_clicks gtx0 (clicks (OpenInNew ui_clicked)) ui_clicked) =
    replicate 2 (EvGo "main.bar" (window_size gtx0) (RunWidget (window_style ui_clicked))) ∧
  active (UI_Windows (state_of (Layout_clicks gtx0 (clicks (OpenInNew ui_clicked)) ui_clicked))) = 3.
Proof.
  destruct (Layout_clicks_opens_each gtx0 ui_clicked _ eq_refl) as (_ & Ht & _ & Ha).
  split; [exact Ht | exact Ha].
Defined.

(** X5 on [ui_start], where nothing is selected, with two clicks. *)
Lemma Layout_clicks_nil_Selected_witness :
  Layout_clicks gtx0 [(); ()] ui_start =
    (Panic nil_deref, set_OpenInNew {| clicks := [()] |} ui_start, []).
Proof. apply (Layout_clicks_nil_Selected gtx0 ui_start () [()]). reflexivity. Defined.

(** X7 on [ui_nil_Output]. *)
Lemma Layout_nil_Output_witness :
  Layout gtx0 ui_nil_Output = (Panic nil_deref, ui_nil_Output, []).
Proof. apply (Layout_nil_Output gtx0 ui_nil_Output); reflexivity. Defined.

(** X8 on the first frame of [ui_start]. *)
Lemma Layout_consistent_witness :
  selection_consistent (state_of (Layout gtx0 ui_start)).
Proof. apply (Layout_consistent gtx0 ui_start). vm_compute. reflexivity. Defined.

(** X9 on [ui_no_matches]. *)
Lemma Layout_no_matches_witness :
  Selected (state_of (Layout gtx0 ui_no_matches)) = None ∧
  EvWidget (CallH4 "no matches") ∈ trace_of (Layout gtx0 ui_no_matches) ∧
  (EvWidget CallMatchUIStyleLayout ∉ trace_of (Layout gtx0 ui_no_matches)).
Proof.
  apply (Layout_no_matches gtx0 ui_no_matches {| Matches := [] |});
    [reflexivity | reflexivity | vm_compute; reflexivity].
Defined.

(** X11 on a frame, a DestroyEvent and a further frame. *)
Lemma WidgetWindow_stops_at_Destroy_witness :
  WidgetWindow Layout_widget [FrameEvent gtx0; DestroyEvent None; FrameEvent gtx0] ui_start =
  WidgetWindow Layout_widget ([FrameEvent gtx0] ++ [DestroyEvent None]) ui_start.
Proof.
  apply (proj1 (WidgetWindow_stops_at_Destroy Layout_widget
                  [FrameEvent gtx0; DestroyEvent None; FrameEvent gtx0] ui_start)
           [FrameEvent gtx0] None [FrameEvent gtx0]).
  reflexivity.
Defined.

(** X12 on a frame, a DestroyEvent and a further frame. *)
Lemma Run_stops_at_Destroy_witness :
  Run [FrameEvent gtx0; DestroyEvent None; FrameEvent gtx0] ui_start =
  Run ([FrameEvent gtx0] ++ [DestroyEvent None]) ui_start.
Proof.
  apply (proj1 (Run_stops_at_Destroy
                  [FrameEvent gtx0; DestroyEvent None; FrameEvent gtx0] ui_start)
           [FrameEvent gtx0] None [FrameEvent gtx0]).
  reflexivity.
Defined.

(** X14 on [lensm -filter main. -font mono.ttf -text-size 14 a.out]. *)
Lemma main_enters_app_Main_witness :
  main cl_font () =
    (Ret (set_Windows {| active := 1 |}
            (main_ui cl_font
               (gofont_Collection ++
                  [{| FF_Font := {| Font_Variant := "Mono"; Font_Weight := text_Normal |};
                      FF_Face := [x00; x01; x00; x00] |}])
               (Some out_main) a_out)), (),
     [EvCompile "main."; EvParse (main_Options cl_font re_main); EvParseExe "a.out"] ++
     [EvReadFile "mono.ttf"] ++
     [EvGo "lensm" (Pt 1400 900) RunUI; EvGoWait; EvAppMain]).
Proof.
  apply (main_enters_app_Main cl_font re_main (Some out_main) a_out);
    first [discriminate | reflexivity].
Defined.


(** X16 on [lensm -filter main. a.out], with a [ParseExe] that returns
    neither an executable nor an error. *)
Lemma main_nil_Executable_witness :
  main (MT := matcher_nil_exe) cl_main () =
    (Panic nil_deref, (),
     [EvCompile "main."; EvParse (main_Options cl_main re_main); EvParseExe "a.out"] ++ []).
Proof.
  apply (main_nil_Executable (MT := matcher_nil_exe) cl_main re_main (Some out_main) []);
    first [discriminate | reflexivity].
Defined.

End MoreOnDemo.
